(** * VeilGame: a confidential builder game over an encrypted-value provider

    A shallow embedding of the [VeilGame] contract (joinGame, build, the three
    read accessors and [_buildingCost]) together with a model of the
    ciphertext provider it calls, followed by the properties of the
    specification. *)

From Stdlib Require Import ZArith List Lia.
From Stdlib Require QArith Qround.
From stdpp Require Import base option gmap vector list strings.

Open Scope Z_scope.

(** ** Ciphertexts *)

Definition handle := N.
Definition address := N.
Definition bytes := list N.

(** Modelled from the spec: the Ciphertext Provider's encrypted scalar types
    (the external FHE library is not part of the repository).  A ciphertext is
    an opaque handle; the cleartext it seals travels with it as a hidden
    component that the contract can only touch through the provider's
    operations.  [bits] is the width of the sealed unsigned integer. *)
Record euint (bits : Z) := Euint { handle_of : handle; clear_of : Z }.
Arguments Euint {bits} _ _.
Arguments handle_of {bits} _.
Arguments clear_of {bits} _.

Record ebool := Ebool { ebool_handle : handle; ebool_clear : bool }.

Definition euint8 := euint 8.
Definition euint32 := euint 32.

(** An encrypted input as delivered by the transport: an opaque handle whose
    content is only known to the provider. *)
Definition externalEuint8 := handle.

(** What the owner obtains by decrypting: the sealed value, read as an
    unsigned integer of the ciphertext's width. *)
Definition decrypt {bits} (c : euint bits) : Z := clear_of c mod 2 ^ bits.

(** The public log of provider calls: which operation ran on which handles.
    Cleartext appears only where the contract itself supplied it (trivial
    encryption of a constant, scalar operands). *)
Inductive fhe_op :=
| TrivialEncrypt (bits : Z) (v : Z) (r : handle)
| VerifyInput (r : handle)
| FheEq (a : handle) (k : Z) (r : handle)
| FheNe (a : handle) (k : Z) (r : handle)
| FheGe (a b r : handle)
| FheAnd (a b r : handle)
| FheSub (a b r : handle)
| FheIfThenElse (c a b r : handle).

Record coprocessor := Coprocessor {
  next_handle : handle;
  acl : gset (handle * address);
  oplog : list fhe_op
}.

(** ** Contract state *)

Definition STARTING_BALANCE : Z := 10000.
Definition MAP_SIZE : nat := 9.

Record PlayerState := mkPlayer {
  joined : bool;
  balance : euint32;
  tiles : vec euint8 MAP_SIZE
}.

Inductive event :=
| PlayerJoined (player : address)
| BuildingPlaced (player : address) (tileIndex : nat).

Record chain := Chain {
  _players : gmap address PlayerState;
  fhe : coprocessor;
  events : list event
}.

(** Solidity storage reads as zero where nothing was written. *)
Definition zero_handle {bits} : euint bits := Euint 0%N 0.

Definition empty_player : PlayerState :=
  mkPlayer false zero_handle (vreplicate MAP_SIZE zero_handle).

Definition player_of (c : chain) (a : address) : PlayerState :=
  default empty_player (_players c !! a).

(** ** Transactions: state plus revert *)

Inductive Error :=
| Already_joined
| Join_first
| Invalid_tile
| Invalid_proof
| Panic_array_index.

Inductive result (A : Type) :=
| Ok (a : A)
| Revert (e : Error).
Arguments Ok {A} _.
Arguments Revert {A} _.

Definition tx (A : Type) : Type := chain -> result (A * chain).

#[global] Instance tx_ret : MRet tx := fun A a c => Ok (a, c).

#[global] Instance tx_bind : MBind tx := fun A B k m c =>
  match m c with
  | Ok (a, c') => k a c'
  | Revert e => Revert e
  end.

Definition require (b : bool) (e : Error) : tx unit :=
  fun c => if b then Ok (tt, c) else Revert e.

Definition emit (e : event) : tx unit :=
  fun c => Ok (tt, Chain (_players c) (fhe c) (events c ++ [e])).

(** Storage access through [_players[a]]. *)
Definition sload (a : address) : tx PlayerState :=
  fun c => Ok (player_of c a, c).

Definition sstore (a : address) (p : PlayerState) : tx unit :=
  fun c => Ok (tt, Chain (<[a := p]> (_players c)) (fhe c) (events c)).

(** Indexing a fixed array of [MAP_SIZE] slots panics out of range. *)
Definition tile_slot (i : nat) : tx (fin MAP_SIZE) :=
  fun c => match decide (i < MAP_SIZE)%nat with
           | left H => Ok (nat_to_fin H, c)
           | right _ => Revert Panic_array_index
           end.

Definition set_joined (a : address) (b : bool) : tx unit :=
  p ← sload a; sstore a (mkPlayer b (balance p) (tiles p)).

Definition get_balance (a : address) : tx euint32 :=
  p ← sload a; mret (balance p).

Definition set_balance (a : address) (v : euint32) : tx unit :=
  p ← sload a; sstore a (mkPlayer (joined p) v (tiles p)).

Definition get_tile (a : address) (i : nat) : tx euint8 :=
  k ← tile_slot i; p ← sload a; mret (tiles p !!! k).

Definition set_tile (a : address) (i : nat) (v : euint8) : tx unit :=
  k ← tile_slot i; p ← sload a;
  sstore a (mkPlayer (joined p) (balance p) (vinsert k v (tiles p))).

(** ** The provider's operations *)

(** Modelled from the spec: the handle of an encrypted constant.  The
    ciphertext of a constant is determined by the constant and its width
    alone: encrypting the same constant again gives the same handle, whoever
    asks.  These handles are odd numbers (the width is below 256), apart
    from every handle the provider mints for a computed ciphertext. *)
Definition constant_handle (bits v : Z) : handle :=
  (2 * (256 * Z.to_N (v mod 2 ^ bits) + Z.to_N bits) + 1)%N.

Module FHE.

(** Modelled from the spec: the result of a computation on ciphertexts (and
    a decoded input) is a new ciphertext.  [mint] hands out the next handle
    for it and logs the call.  These handles are the even numbers from 2 on;
    0 is the uninitialised handle. *)
Definition mint (op : handle -> fhe_op) : tx handle :=
  fun c =>
    let h := next_handle (fhe c) in
    Ok (h, Chain (_players c)
                 (Coprocessor (h + 2)%N (acl (fhe c)) (oplog (fhe c) ++ [op h]))
                 (events c)).

(** Modelled from the spec: [encrypt(clear)], which takes the handle of the
    constant and logs the call. *)
Definition asEuint (bits : Z) (v : Z) : tx (euint bits) :=
  fun c =>
    let h := constant_handle bits v in
    Ok (Euint h (v mod 2 ^ bits),
        Chain (_players c)
              (Coprocessor (next_handle (fhe c)) (acl (fhe c))
                           (oplog (fhe c) ++ [TrivialEncrypt bits v h]))
              (events c)).
Definition asEuint8 : Z -> tx euint8 := asEuint 8.
Definition asEuint32 : Z -> tx euint32 := asEuint 32.

(** Modelled from the spec: oblivious [eq] and [ne] against a scalar. *)
Definition eq {bits} (a : euint bits) (k : Z) : tx ebool :=
  h ← mint (FheEq (handle_of a) k); mret (Ebool h (decrypt a =? k)).

Definition ne {bits} (a : euint bits) (k : Z) : tx ebool :=
  h ← mint (FheNe (handle_of a) k); mret (Ebool h (negb (decrypt a =? k))).

(** Modelled from the spec: oblivious [ge], [and], [sub] (wrapping at the
    width) and [select]. *)
Definition ge {bits} (a b : euint bits) : tx ebool :=
  h ← mint (FheGe (handle_of a) (handle_of b));
  mret (Ebool h (decrypt b <=? decrypt a)).

Definition and (a b : ebool) : tx ebool :=
  h ← mint (FheAnd (ebool_handle a) (ebool_handle b));
  mret (Ebool h (ebool_clear a && ebool_clear b)).

Definition sub {bits} (a b : euint bits) : tx (euint bits) :=
  h ← mint (FheSub (handle_of a) (handle_of b));
  mret (Euint h ((decrypt a - decrypt b) mod 2 ^ bits)).

Definition select {bits} (c : ebool) (a b : euint bits) : tx (euint bits) :=
  h ← mint (FheIfThenElse (ebool_handle c) (handle_of a) (handle_of b));
  mret (Euint h (if ebool_clear c then decrypt a else decrypt b)).

(** Modelled from the spec: [authorize(identity, ciphertext)]; granting
    twice is the same as granting once. *)
Definition allow {bits} (v : euint bits) (who : address) : tx unit :=
  fun c => Ok (tt, Chain (_players c)
                         (Coprocessor (next_handle (fhe c))
                                      ({[ (handle_of v, who) ]} ∪ acl (fhe c))
                                      (oplog (fhe c)))
                         (events c)).

Section Provider.
(** The contract's own address and the provider's input verifier: the
    cleartext a (handle, proof) pair opens to, if the proof is valid. *)
Context (this : address) (verifier : externalEuint8 -> bytes -> option Z).

Definition allowThis {bits} (v : euint bits) : tx unit := allow v this.

(** Modelled from the spec: [decode(handle, proof)], failing with
    [InvalidProof]. *)
Definition fromExternal (input : externalEuint8) (inputProof : bytes) : tx euint8 :=
  fun c => match verifier input inputProof with
           | Some v => (h ← mint VerifyInput; mret (Euint h (v mod 2 ^ 8))) c
           | None => Revert Invalid_proof
           end.
End Provider.

End FHE.

(** ** The contract *)

Section VeilGame.
Context (this : address) (verifier : externalEuint8 -> bytes -> option Z).

(** The body of the loop [for (uint8 i = 0; i < MAP_SIZE; i++)] of joinGame,
    unrolled on the number of iterations still to run. *)
Fixpoint joinGame_loop (sender : address) (todo : nat) (i : nat) : tx unit :=
  match todo with
  | O => mret tt
  | S todo' =>
      z ← FHE.asEuint8 0;
      set_tile sender i z;;
      t ← get_tile sender i; FHE.allowThis this t;;
      t ← get_tile sender i; FHE.allow t sender;;
      joinGame_loop sender todo' (S i)
  end.

Definition joinGame (sender : address) : tx unit :=
  player ← sload sender;
  require (negb (joined player)) Already_joined;;
  set_joined sender true;;
  b ← FHE.asEuint32 STARTING_BALANCE;
  set_balance sender b;;
  joinGame_loop sender MAP_SIZE 0%nat;;
  b ← get_balance sender; FHE.allowThis this b;;
  b ← get_balance sender; FHE.allow b sender;;
  emit (PlayerJoined sender).

Definition _buildingCost (buildingType : euint8) : tx euint32 :=
  cost ← FHE.asEuint32 0;
  is1 ← FHE.eq buildingType 1; c1 ← FHE.asEuint32 100;
  cost ← FHE.select is1 c1 cost;
  is2 ← FHE.eq buildingType 2; c2 ← FHE.asEuint32 200;
  cost ← FHE.select is2 c2 cost;
  is3 ← FHE.eq buildingType 3; c3 ← FHE.asEuint32 400;
  cost ← FHE.select is3 c3 cost;
  is4 ← FHE.eq buildingType 4; c4 ← FHE.asEuint32 1000;
  cost ← FHE.select is4 c4 cost;
  mret cost.

Definition build (sender : address) (tileIndex : nat)
    (buildingType : externalEuint8) (inputProof : bytes) : tx unit :=
  p ← sload sender;
  require (joined p) Join_first;;
  require (bool_decide (tileIndex < MAP_SIZE)%nat) Invalid_tile;;
  chosenType ← FHE.fromExternal verifier buildingType inputProof;
  cost ← _buildingCost chosenType;
  hasCost ← FHE.ne cost 0;
  bal ← get_balance sender;
  canAfford ← FHE.ge bal cost;
  shouldBuild ← FHE.and hasCost canAfford;
  bal ← get_balance sender;
  spent ← FHE.sub bal cost;
  kept ← get_balance sender;
  newBalance ← FHE.select shouldBuild spent kept;
  set_balance sender newBalance;;
  old ← get_tile sender tileIndex;
  newTile ← FHE.select shouldBuild chosenType old;
  set_tile sender tileIndex newTile;;
  b ← get_balance sender; FHE.allowThis this b;;
  b ← get_balance sender; FHE.allow b sender;;
  t ← get_tile sender tileIndex; FHE.allowThis this t;;
  t ← get_tile sender tileIndex; FHE.allow t sender;;
  emit (BuildingPlaced sender tileIndex).

Definition isJoined (player : address) : tx bool :=
  p ← sload player; mret (joined p).

Definition getBalance (player : address) : tx euint32 :=
  p ← sload player; mret (balance p).

Definition getTile (player : address) (tileIndex : nat) : tx euint8 :=
  require (bool_decide (tileIndex < MAP_SIZE)%nat) Invalid_tile;;
  get_tile player tileIndex.

End VeilGame.

(** ** The host ledger *)

(** A call that reverts is rolled back whole; a call that returns is
    recorded. *)
Definition execute (call : tx unit) (s : chain) : chain :=
  match call s with
  | Ok (_, s') => s'
  | Revert _ => s
  end.

(** Freshly deployed: no player, nothing minted (handle 0 is the
    uninitialised one), nothing granted. *)
Definition genesis : chain := Chain ∅ (Coprocessor 2%N ∅ []) [].

Section Reachability.
Context (this : address) (verifier : externalEuint8 -> bytes -> option Z).

Inductive step : chain -> chain -> Prop :=
| step_joinGame sender s s' :
    joinGame this sender s = Ok (tt, s') -> step s s'
| step_build sender tileIndex buildingType inputProof s s' :
    build this verifier sender tileIndex buildingType inputProof s = Ok (tt, s') ->
    step s s'.

Inductive reachable : chain -> Prop :=
| reachable_genesis : reachable genesis
| reachable_step s s' : reachable s -> step s s' -> reachable s'.

End Reachability.

(** ** Closed forms used by the statements *)

(** The cost table as the select chain of [_buildingCost] reads it: a later
    entry overrides an earlier one. *)
Definition price (t : Z) : Z :=
  if t =? 4 then 1000 else if t =? 3 then 400 else if t =? 2 then 200
  else if t =? 1 then 100 else 0.

(** The commit predicate in the clear. *)
Definition commits (bal t : Z) : bool :=
  negb (price t =? 0) && (price t <=? bal).

(** The provider calls of one cost evaluation on the type handle [t], with
    [n] the next handle to mint. *)
Definition cost_ops (n t : handle) : list fhe_op :=
  [ TrivialEncrypt 32 0 (constant_handle 32 0);
    FheEq t 1 n; TrivialEncrypt 32 100 (constant_handle 32 100);
    FheIfThenElse n (constant_handle 32 100) (constant_handle 32 0) (n + 2);
    FheEq t 2 (n + 4); TrivialEncrypt 32 200 (constant_handle 32 200);
    FheIfThenElse (n + 4) (constant_handle 32 200) (n + 2) (n + 6);
    FheEq t 3 (n + 8); TrivialEncrypt 32 400 (constant_handle 32 400);
    FheIfThenElse (n + 8) (constant_handle 32 400) (n + 6) (n + 10);
    FheEq t 4 (n + 12); TrivialEncrypt 32 1000 (constant_handle 32 1000);
    FheIfThenElse (n + 12) (constant_handle 32 1000) (n + 10) (n + 14) ]%N.

(** The provider calls of one build, on the balance handle [hb] and the
    target tile handle [ht]. *)
Definition build_ops (n hb ht : handle) : list fhe_op :=
  (VerifyInput n :: cost_ops (n + 2) n ++
   [ FheNe (n + 16) 0 (n + 18);
     FheGe hb (n + 16) (n + 20);
     FheAnd (n + 18) (n + 20) (n + 22);
     FheSub hb (n + 16) (n + 24);
     FheIfThenElse (n + 22) (n + 24) hb (n + 26);
     FheIfThenElse (n + 22) n ht (n + 28) ])%N.

(** Granting [h] to the contract and then to [who]. *)
Definition grant2 (this who : address) (h : handle)
    (A : gset (handle * address)) : gset (handle * address) :=
  {[ (h, who) ]} ∪ ({[ (h, this) ]} ∪ A).

Definition build_grants (this who : address) (n : handle)
    (A : gset (handle * address)) : gset (handle * address) :=
  (grant2 this who (n + 28) (grant2 this who (n + 26) A))%N.

(** The loop of joinGame: its grants, one pair per iteration and each time
    on the handle of the encrypted 0, the tiles it leaves, and its provider
    calls. *)
Definition loop_grants (this who : address)
    (A : gset (handle * address)) : gset (handle * address) :=
  Nat.iter MAP_SIZE (grant2 this who (constant_handle 8 0)) A.

Definition loop_tiles : vec euint8 MAP_SIZE :=
  vreplicate MAP_SIZE (Euint (constant_handle 8 0) (0 mod 2 ^ 8)).

Definition loop_ops : list fhe_op :=
  replicate MAP_SIZE (TrivialEncrypt 8 0 (constant_handle 8 0)).

(** The chain after a join by [a] from [s], and after a build by [a] on slot
    [k] that stored the ciphertexts [nb] and [nt]. *)
Definition after_join (this a : address) (s : chain) : chain :=
  Chain (<[a := mkPlayer true
                   (Euint (constant_handle 32 STARTING_BALANCE)
                          (STARTING_BALANCE mod 2 ^ 32))
                   loop_tiles]> (_players s))
        (Coprocessor (next_handle (fhe s))
           (grant2 this a (constant_handle 32 STARTING_BALANCE)
              (loop_grants this a (acl (fhe s))))
           (oplog (fhe s) ++
              TrivialEncrypt 32 STARTING_BALANCE (constant_handle 32 STARTING_BALANCE)
              :: loop_ops))
        (events s ++ [PlayerJoined a]).

Definition after_build (this a : address) (k : fin MAP_SIZE)
    (nb : euint32) (nt : euint8) (s : chain) : chain :=
  Chain (<[a := mkPlayer true nb (vinsert k nt (tiles (player_of s a)))]> (_players s))
        (Coprocessor (next_handle (fhe s) + 30)%N
           (build_grants this a (next_handle (fhe s)) (acl (fhe s)))
           (oplog (fhe s) ++
              build_ops (next_handle (fhe s))
                (handle_of (balance (player_of s a)))
                (handle_of (tiles (player_of s a) !!! k))))
        (events s ++ [BuildingPlaced a (fin_to_nat k)]).

(** What a build on slot [k] with chosen type [t] seals into the two
    ciphertexts it stores: the handles it minted for them, and the committed
    or the kept value. *)
Definition stored_by_build (s : chain) (a : address) (k : fin MAP_SIZE) (t : Z)
    (nb : euint32) (nt : euint8) : Prop :=
  handle_of nb = (next_handle (fhe s) + 26)%N /\
  handle_of nt = (next_handle (fhe s) + 28)%N /\
  decrypt nb = (if commits (decrypt (balance (player_of s a))) t
                then decrypt (balance (player_of s a)) - price t
                else decrypt (balance (player_of s a))) /\
  decrypt nt = (if commits (decrypt (balance (player_of s a))) t
                then t
                else decrypt (tiles (player_of s a) !!! k)).

(** ** Invariants *)

(** The handle of one of the two constants joinGame encrypts. *)
Definition initial_handle (h : handle) : Prop :=
  h = constant_handle 32 STARTING_BALANCE \/ h = constant_handle 8 0.

(** Handle [h], stored for [a], is granted to [a] and to the contract; and
    unless it is the handle of an initial constant, it was minted and is
    granted to nobody else. *)
Definition owned (this : address) (s : chain) (a : address) (h : handle) : Prop :=
  (h, a) ∈ acl (fhe s) /\ (h, this) ∈ acl (fhe s) /\
  (initial_handle h \/
   (N.even h = true /\ (h < next_handle (fhe s))%N /\
    forall w, (h, w) ∈ acl (fhe s) -> w = a \/ w = this)).

Definition healthy (this : address) (s : chain) : Prop :=
  N.even (next_handle (fhe s)) = true /\
  (forall h w, (h, w) ∈ acl (fhe s) ->
     (w = this \/ joined (player_of s w) = true) /\
     (N.even h = true -> (h < next_handle (fhe s))%N)) /\
  (forall a, joined (player_of s a) = true ->
     owned this s a (handle_of (balance (player_of s a))) /\
     (forall k, owned this s a (handle_of (tiles (player_of s a) !!! k))) /\
     decrypt (balance (player_of s a)) <= STARTING_BALANCE).

(** Handle [h] is the one of a ciphertext in [a]'s record: the balance or
    one of the slots. *)
Definition stored_for (s : chain) (a : address) (h : handle) : Prop :=
  h = handle_of (balance (player_of s a)) \/
  exists k : fin MAP_SIZE, h = handle_of (tiles (player_of s a) !!! k).

(** The handle a logged provider call returned. *)
Definition op_result (op : fhe_op) : handle :=
  match op with
  | TrivialEncrypt _ _ r | VerifyInput r | FheEq _ _ r | FheNe _ _ r
  | FheGe _ _ r | FheAnd _ _ r | FheSub _ _ r | FheIfThenElse _ _ _ r => r
  end.

(** ** What an outside observer sees *)

(** Of a record: the flag and the handles, not what they seal. *)
Definition public_player (p : PlayerState) : bool * handle * vec handle MAP_SIZE :=
  (joined p, handle_of (balance p), vmap handle_of (tiles p)).

(** Of the chain: every record's public part, the whole provider state
    (handle counter, grants, call log) and the events. *)
Definition public_view (c : chain)
    : gmap address (bool * handle * vec handle MAP_SIZE) * coprocessor * list event :=
  (public_player <$> _players c, fhe c, events c).

(** ** A concrete deployment, for examples *)

Definition demo_this : address := 100%N.
Definition alice : address := 7%N.
Definition bob : address := 8%N.

(** A verifier accepting exactly the one-byte proof that names the handle;
    the input then opens to the handle's low byte. *)
Definition demo_verifier (h : externalEuint8) (proof : bytes) : option Z :=
  match proof with
  | [b] => if (b =? h)%N then Some (Z.of_N h) else None
  | _ => None
  end.

Definition demo_joined : chain := execute (joinGame demo_this alice) genesis.

Definition demo_built : chain :=
  execute (build demo_this demo_verifier alice 2 3%N [3%N]) demo_joined.

(** Alice joined, then bob. *)
Definition demo_two_joined : chain := execute (joinGame demo_this bob) demo_joined.

(** The chain [demo_joined] as an outsider sees it, but with alice's balance
    sealing 50 instead of 10000. *)
Definition demo_poor : chain :=
  Chain (<[alice := mkPlayer true
                      (Euint (handle_of (balance (player_of demo_joined alice))) 50)
                      (tiles (player_of demo_joined alice))]> (_players demo_joined))
        (fhe demo_joined) (events demo_joined).

(** ** Sequences of calls *)

Inductive steps (this : address) (verifier : externalEuint8 -> bytes -> option Z)
    : chain -> chain -> Prop :=
| steps_none s : steps this verifier s s
| steps_more s s' s'' :
    steps this verifier s s' -> step this verifier s' s'' -> steps this verifier s s''.

(** ** Bookkeeping a player can do from the decrypted record *)

(** What the buildings standing on the map cost at table price. *)
Definition map_value (p : PlayerState) : Z :=
  foldr (fun c acc => price (decrypt c) + acc) 0 (vec_to_list (tiles p)).

Definition thrifty (s : chain) : Prop :=
  forall a, joined (player_of s a) = true ->
    (forall k : fin MAP_SIZE, 0 <= decrypt (tiles (player_of s a) !!! k) <= 4) /\
    (100 | decrypt (balance (player_of s a))) /\
    decrypt (balance (player_of s a)) + map_value (player_of s a) <= STARTING_BALANCE.

(** The record of an identity that never joined is the all-zero storage. *)
Definition untouched (s : chain) : Prop :=
  forall a, joined (player_of s a) = false -> player_of s a = empty_player.

#[global] Instance event_eq_dec : EqDecision event.
Proof. solve_decision. Defined.

Definition joins_logged (a : address) (log : list event) : nat :=
  length (filter (fun e => e = PlayerJoined a) log).

Definition log_faithful (s : chain) : Prop :=
  (forall a, joins_logged a (events s) = if joined (player_of s a) then 1%nat else 0%nat) /\
  (forall a i, In (BuildingPlaced a i) (events s) ->
     (i < MAP_SIZE)%nat /\ joined (player_of s a) = true).

(** ** The front end's tables *)

Module UI.

Record building := Building { id : Z; name : string; cost : Z; detail : string }.

Definition BUILDINGS : list building :=
  [ Building 1 "Lookout Post" 100 "Low cost scout tower for early control.";
    Building 2 "Workshop" 200 "Boosts crafting and supply pacing.";
    Building 3 "Barracks" 400 "Trains units and reinforces territory.";
    Building 4 "Citadel" 1000 "Heavy defense and late game anchor." ].

Definition TILE_COUNT : nat := 9.

(** One entry of the batch of reads handed to the contract reader: the
    contract to call, the function and its arguments.  (The entry's [abi]
    field, the same imported constant in every entry, is left out.) *)
Definition Address : Type := address.

Record read_call :=
  ReadCall { address : Address; functionName : string; args : Address * nat }.

(** [tileContracts]: nothing without a connected address or a configured
    contract, else one getTile read per index below [TILE_COUNT].
    [CONTRACT_ADDRESS] comes from a configuration file and is a parameter. *)
Definition tileContracts (CONTRACT_ADDRESS : Address)
    (account : option Address) (isContractConfigured : bool)
    : list read_call :=
  match account with
  | None => []
  | Some a =>
      if negb isContractConfigured then []
      else map (fun index => ReadCall CONTRACT_ADDRESS "getTile" (a, index))
               (seq 0 TILE_COUNT)
  end.

End UI.

(** ** The command-line tasks' argument checks *)

Module Tasks.
Import QArith Qround.

(** A JavaScript number as far as the checks look at it: not-a-number, an
    infinity, or a finite value (every finite double is a rational).  The
    result of parseInt on the raw argument is taken as given. *)
Inductive number :=
| NaN
| Infinity (negative : bool)
| Finite (q : Q).

Definition isInteger (x : number) : bool :=
  match x with
  | Finite q => Qeq_bool (inject_Z (Qfloor q)) q
  | _ => false
  end.

(** [x < k] and [x > k] against an integer literal; false on NaN. *)
Definition lt (x : number) (k : Z) : bool :=
  match x with
  | NaN => false
  | Infinity negative => negative
  | Finite q => negb (Qle_bool (inject_Z k) q)
  end.

Definition gt (x : number) (k : Z) : bool :=
  match x with
  | NaN => false
  | Infinity negative => negb negative
  | Finite q => negb (Qle_bool q (inject_Z k))
  end.

(** The integer a checked argument is sent as. *)
Definition sent (x : number) : Z :=
  match x with
  | Finite q => Qfloor q
  | _ => 0%Z
  end.

(** The check of task:build and task:decrypt-tile on [--tile]: [None] when it
    lets the argument through, else the message thrown. *)
Definition check_tile (tileIndex : number) : option string :=
  if negb (isInteger tileIndex) || lt tileIndex 0 || gt tileIndex 8
  then Some "Argument --tile must be 0-8"%string else None.

(** The check of task:build on [--type]. *)
Definition check_type (buildingType : number) : option string :=
  if negb (isInteger buildingType) || lt buildingType 1 || gt buildingType 4
  then Some "Argument --type must be 1-4"%string else None.

End Tasks.

(** ** The flows of the test suites *)

(** "joins if needed": read isJoined, and join when it answers false. *)
Definition join_if_needed (this a : address) (s : chain) : chain :=
  match isJoined a s with
  | Ok (false, _) => execute (joinGame this a) s
  | _ => s
  end.

(** ** Running a transaction step by step *)

Lemma bind_ok {A B} (m : tx A) (k : A -> tx B) s a s' :
  m s = Ok (a, s') -> (m ≫= k) s = k a s'.
Proof. intros H. unfold mbind, tx_bind. by rewrite H. Qed.

Lemma bind_revert {A B} (m : tx A) (k : A -> tx B) s e :
  m s = Revert e -> (m ≫= k) s = Revert e.
Proof. intros H. unfold mbind, tx_bind. by rewrite H. Qed.

Lemma player_of_store m f e a p : player_of (Chain (<[a:=p]> m) f e) a = p.
Proof. unfold player_of; cbn. by rewrite lookup_insert_eq. Qed.

Lemma player_of_store_ne m f e a b p :
  a ≠ b -> player_of (Chain (<[a:=p]> m) f e) b = default empty_player (m !! b).
Proof. intros. unfold player_of; cbn. by rewrite lookup_insert_ne. Qed.

Lemma player_of_same s f e a : player_of (Chain (_players s) f e) a = player_of s a.
Proof. reflexivity. Qed.

Lemma run_tile_slot (k : fin MAP_SIZE) s : tile_slot (fin_to_nat k) s = Ok (k, s).
Proof.
  unfold tile_slot. destruct (decide _) as [H|H].
  - by rewrite nat_to_fin_to_nat.
  - destruct H. apply fin_to_nat_lt.
Qed.

Lemma run_tile_slot_out i s : (MAP_SIZE <= i)%nat -> tile_slot i s = Revert Panic_array_index.
Proof. intros H. unfold tile_slot. destruct (decide _); [lia | done]. Qed.

Lemma run_get_tile a (k : fin MAP_SIZE) s :
  get_tile a (fin_to_nat k) s = Ok (tiles (player_of s a) !!! k, s).
Proof. unfold get_tile. by rewrite (bind_ok _ _ _ _ _ (run_tile_slot k s)). Qed.

Lemma run_set_tile a (k : fin MAP_SIZE) v s :
  set_tile a (fin_to_nat k) v s =
  Ok (tt, Chain (<[a := mkPlayer (joined (player_of s a)) (balance (player_of s a))
                                 (vinsert k v (tiles (player_of s a)))]> (_players s))
                (fhe s) (events s)).
Proof. unfold set_tile. by rewrite (bind_ok _ _ _ _ _ (run_tile_slot k s)). Qed.

Ltac tx_norm :=
  cbn [_players fhe events next_handle acl oplog];
  rewrite ?player_of_store, ?player_of_same, ?insert_insert_eq;
  cbn [joined balance tiles handle_of clear_of ebool_handle ebool_clear];
  rewrite ?vlookup_insert.

Ltac tx_prim :=
  lazymatch goal with
  | |- get_tile _ _ _ = _ => apply run_get_tile
  | |- set_tile _ _ _ _ = _ => apply run_set_tile
  | |- _ => reflexivity
  end.

Ltac tx_step := erewrite bind_ok; [ | tx_prim ]; tx_norm.

Ltac handles :=
  rewrite <- ?N.add_assoc; cbn [N.add Pos.add Pos.succ Pos.add_carry].

Lemma decrypt_range {bits} (c : euint bits) : 0 <= bits -> 0 <= decrypt c < 2 ^ bits.
Proof. intros. unfold decrypt. apply Z.mod_pos_bound. by apply Z.pow_pos_nonneg. Qed.

Lemma decrypt_seal {bits} h (v : Z) : 0 <= v < 2 ^ bits -> decrypt (@Euint bits h v) = v.
Proof. intros. unfold decrypt. cbn. by apply Z.mod_small. Qed.

Lemma price_range t : 0 <= price t <= 1000.
Proof. unfold price. repeat case_match; lia. Qed.

Lemma price_cases t :
  (t = 1 /\ price t = 100) \/ (t = 2 /\ price t = 200) \/ (t = 3 /\ price t = 400)
  \/ (t = 4 /\ price t = 1000)
  \/ (t <> 1 /\ t <> 2 /\ t <> 3 /\ t <> 4 /\ price t = 0).
Proof.
  unfold price.
  destruct (Z.eqb_spec t 4); [lia|]. destruct (Z.eqb_spec t 3); [lia|].
  destruct (Z.eqb_spec t 2); [lia|]. destruct (Z.eqb_spec t 1); lia.
Qed.

Lemma commits_true bal t : commits bal t = true <-> price t <> 0 /\ price t <= bal.
Proof.
  unfold commits. rewrite andb_true_iff, negb_true_iff, Z.eqb_neq, Z.leb_le. tauto.
Qed.

Lemma commits_false bal t : commits bal t = false <-> price t = 0 \/ bal < price t.
Proof.
  unfold commits. rewrite andb_false_iff, negb_false_iff, Z.eqb_eq, Z.leb_gt. tauto.
Qed.

Section Run.
Context (this : address) (verifier : externalEuint8 -> bytes -> option Z).

Lemma run_buildingCost (t : euint8) s :
  exists c : euint32,
    _buildingCost t s =
      Ok (c, Chain (_players s)
                   (Coprocessor (next_handle (fhe s) + 16)%N (acl (fhe s))
                      (oplog (fhe s) ++ cost_ops (next_handle (fhe s)) (handle_of t)))
                   (events s))
    /\ handle_of c = (next_handle (fhe s) + 14)%N
    /\ decrypt c = price (decrypt t).
Proof.
  unfold _buildingCost. eexists. split.
  - do 13 tx_step. unfold mret, tx_ret. handles.
    rewrite <- !app_assoc. cbn [app]. reflexivity.
  - handles. cbn [handle_of]. split; [reflexivity|].
    unfold price, decrypt at 1. cbn [clear_of].
    repeat (destruct (decrypt t =? _)); reflexivity.
Qed.

Lemma run_build a (k : fin MAP_SIZE) bt pf s v :
  joined (player_of s a) = true -> verifier bt pf = Some v ->
  exists (nb : euint32) (nt : euint8),
    build this verifier a (fin_to_nat k) bt pf s =
      Ok (tt, after_build this a k nb nt s)
    /\ stored_by_build s a k (v mod 2 ^ 8) nb nt.
Proof.
  intros Hj Hv. unfold build.
  tx_step. rewrite Hj. tx_step.
  rewrite bool_decide_eq_true_2 by apply fin_to_nat_lt. tx_step.
  unfold FHE.fromExternal. rewrite Hv. tx_step.
  match goal with |- context [mbind _ (_buildingCost ?t) ?s] =>
    destruct (run_buildingCost t s) as ([hc cc] & Hrun & Hh & Hc) end.
  rewrite (bind_ok _ _ _ _ _ Hrun). clear Hrun.
  cbn [_players fhe events next_handle acl oplog handle_of] in Hh. subst hc.
  tx_norm.
  set (cost := Euint _ cc) in *.
  do 18 tx_step.
  assert (Ht : decrypt (@Euint 8 (next_handle (fhe s)) (v mod 2 ^ 8)) = v mod 2 ^ 8).
  { apply decrypt_seal. apply Z.mod_pos_bound. lia. }
  rewrite Ht in *. rewrite Hc.
  fold (commits (decrypt (balance (player_of s a))) (v mod 2 ^ 8)).
  unfold stored_by_build. eexists _, _. split; [|split; [|split; [|split]]].
  - tx_step. tx_step. unfold emit, after_build. tx_norm. subst cost.
    cbn [handle_of]. handles. rewrite Hj.
    unfold build_grants, grant2, build_ops, cost_ops. handles.
    rewrite <- !app_assoc. cbn [app]. reflexivity.
  - cbn [handle_of]. handles. reflexivity.
  - cbn [handle_of]. handles. reflexivity.
  - unfold decrypt at 1. cbn [clear_of].
    assert (Hb : 0 <= decrypt (balance (player_of s a)) < 2 ^ 32)
      by (apply decrypt_range; lia).
    pose proof (price_range (v mod 2 ^ 8)) as Hp.
    destruct (commits _ _) eqn:E.
    + apply commits_true in E. unfold decrypt at 1. cbn [clear_of].
      rewrite !Zmod_mod. apply Z.mod_small. lia.
    + apply Z.mod_small. lia.
  - unfold decrypt at 1. cbn [clear_of].
    destruct (commits _ _).
    + rewrite Z.mod_small; [done|]. apply Z.mod_pos_bound. lia.
    + apply Z.mod_small. apply decrypt_range. lia.
Qed.

Ltac loop_iteration a K :=
  tx_step;
  erewrite (bind_ok _ _ _ _ _ (run_set_tile a K _ _)); tx_norm;
  erewrite (bind_ok _ _ _ _ _ (run_get_tile a K _)); tx_norm; tx_step;
  erewrite (bind_ok _ _ _ _ _ (run_get_tile a K _)); tx_norm; tx_step.

Lemma run_joinGame_loop a s :
  joinGame_loop this a MAP_SIZE 0 s =
    Ok (tt, Chain (<[a := mkPlayer (joined (player_of s a)) (balance (player_of s a))
                                   loop_tiles]> (_players s))
                  (Coprocessor (next_handle (fhe s))
                     (loop_grants this a (acl (fhe s)))
                     (oplog (fhe s) ++ loop_ops))
                  (events s)).
Proof.
  change (joinGame_loop this a MAP_SIZE 0) with (joinGame_loop this a 9 0).
  cbn [joinGame_loop].
  loop_iteration a (0%fin : fin MAP_SIZE). loop_iteration a (1%fin : fin MAP_SIZE).
  loop_iteration a (2%fin : fin MAP_SIZE). loop_iteration a (3%fin : fin MAP_SIZE).
  loop_iteration a (4%fin : fin MAP_SIZE). loop_iteration a (5%fin : fin MAP_SIZE).
  loop_iteration a (6%fin : fin MAP_SIZE). loop_iteration a (7%fin : fin MAP_SIZE).
  loop_iteration a (8%fin : fin MAP_SIZE).
  unfold mret, tx_ret. rewrite <- !app_assoc. cbn [app].
  generalize (tiles (player_of s a)). unfold MAP_SIZE. intros v. inv_vec v. intros.
  reflexivity.
Qed.

Lemma run_joinGame a s :
  joined (player_of s a) = false ->
  joinGame this a s =
    Ok (tt, after_join this a s).
Proof.
  intros Hj. unfold joinGame.
  tx_step. rewrite Hj. cbn [negb]. do 4 tx_step.
  erewrite (bind_ok _ _ _ _ _ (run_joinGame_loop a _)). do 4 tx_norm.
  do 4 tx_step. unfold emit, after_join. tx_norm.
  rewrite <- !app_assoc. cbn [app]. reflexivity.
Qed.

Lemma run_joinGame_again a s :
  joined (player_of s a) = true -> joinGame this a s = Revert Already_joined.
Proof. intros Hj. unfold joinGame. tx_step. rewrite Hj. reflexivity. Qed.

Lemma run_build_not_joined a i bt pf s :
  joined (player_of s a) = false ->
  build this verifier a i bt pf s = Revert Join_first.
Proof. intros Hj. unfold build. tx_step. rewrite Hj. reflexivity. Qed.

Lemma run_build_bad_index a i bt pf s :
  joined (player_of s a) = true -> (MAP_SIZE <= i)%nat ->
  build this verifier a i bt pf s = Revert Invalid_tile.
Proof.
  intros Hj Hi. unfold build. tx_step. rewrite Hj. tx_step.
  rewrite bool_decide_eq_false_2 by lia. reflexivity.
Qed.

Lemma run_build_bad_proof a i bt pf s :
  joined (player_of s a) = true -> (i < MAP_SIZE)%nat -> verifier bt pf = None ->
  build this verifier a i bt pf s = Revert Invalid_proof.
Proof.
  intros Hj Hi Hv. unfold build. tx_step. rewrite Hj. tx_step.
  rewrite bool_decide_eq_true_2 by done. tx_step.
  apply bind_revert. unfold FHE.fromExternal. by rewrite Hv.
Qed.

End Run.

(** ** Inverting a successful call *)

Section Inversion.
Context (this : address) (verifier : externalEuint8 -> bytes -> option Z).

Lemma joinGame_inv a s s' :
  joinGame this a s = Ok (tt, s') ->
  joined (player_of s a) = false /\ s' = after_join this a s.
Proof.
  intros H. destruct (joined (player_of s a)) eqn:Hj.
  - rewrite run_joinGame_again in H by done. discriminate.
  - rewrite run_joinGame in H by done. split; [done | congruence].
Qed.

Lemma build_inv a i bt pf s s' :
  build this verifier a i bt pf s = Ok (tt, s') ->
  joined (player_of s a) = true /\
  exists k v nb nt,
    fin_to_nat k = i /\ verifier bt pf = Some v /\
    s' = after_build this a k nb nt s /\
    stored_by_build s a k (v mod 2 ^ 8) nb nt.
Proof.
  intros H. destruct (joined (player_of s a)) eqn:Hj.
  2: { rewrite run_build_not_joined in H by done. discriminate. }
  split; [done|].
  destruct (decide (i < MAP_SIZE)%nat) as [Hi|Hi].
  2: { rewrite run_build_bad_index in H by (done || lia). discriminate. }
  destruct (verifier bt pf) as [v|] eqn:Hv.
  2: { rewrite run_build_bad_proof in H by done. discriminate. }
  destruct (run_build this verifier a (nat_to_fin Hi) bt pf s v Hj Hv)
    as (nb & nt & Hrun & Hst).
  rewrite fin_to_nat_to_fin in Hrun. rewrite Hrun in H.
  exists (nat_to_fin Hi), v, nb, nt.
  rewrite fin_to_nat_to_fin. repeat split; [congruence | apply Hst..].
Qed.

End Inversion.

(** ** Grants and the invariant *)

Lemma elem_of_grant2 this who h A x :
  x ∈ grant2 this who h A <-> x = (h, who) \/ x = (h, this) \/ x ∈ A.
Proof. unfold grant2. set_solver. Qed.

Lemma elem_of_build_grants this a n A h w :
  (h, w) ∈ build_grants this a n A <->
  ((h = n + 26 \/ h = n + 28)%N /\ (w = a \/ w = this)) \/ (h, w) ∈ A.
Proof.
  unfold build_grants. rewrite !elem_of_grant2, !pair_equal_spec. tauto.
Qed.

Lemma elem_of_iter_grant2 this a c A h w n :
  (h, w) ∈ Nat.iter n (grant2 this a c) A <->
  (n <> 0%nat /\ h = c /\ (w = a \/ w = this)) \/ (h, w) ∈ A.
Proof.
  induction n as [|n IH].
  - cbn. split; [by right | intros [[? _]|?]; [done | done]].
  - rewrite Nat.iter_succ, elem_of_grant2, !pair_equal_spec, IH. split.
    + intros [[-> ->]|[[-> ->]|[(_ & -> & Hw)|?]]]; [left..|by right];
        (split; [done|]); (split; [done|]); tauto.
    + intros [(_ & -> & [->| ->])|?]; tauto.
Qed.

Lemma elem_of_join_grants this a A h w :
  (h, w) ∈ grant2 this a (constant_handle 32 STARTING_BALANCE) (loop_grants this a A) <->
  (initial_handle h /\ (w = a \/ w = this)) \/ (h, w) ∈ A.
Proof.
  unfold loop_grants, initial_handle.
  rewrite elem_of_grant2, !pair_equal_spec, elem_of_iter_grant2. split.
  - intros [[-> ->]|[[-> ->]|[(_ & -> & Hw)|?]]]; tauto.
  - intros [[[->| ->] Hw]|?]; [tauto| |tauto].
    right. right. left. split; [discriminate|]. tauto.
Qed.

Lemma constant_handle_odd bits v : N.even (constant_handle bits v) = false.
Proof.
  unfold constant_handle. rewrite <- N.negb_odd, N.add_comm, N.odd_add_mul_2.
  reflexivity.
Qed.

Lemma initial_handle_odd h : initial_handle h -> N.even h = false.
Proof. intros [->| ->]; apply constant_handle_odd. Qed.

Lemma loop_tiles_handle (k : fin MAP_SIZE) :
  handle_of (loop_tiles !!! k) = constant_handle 8 0.
Proof. unfold loop_tiles. by rewrite vlookup_replicate. Qed.

Lemma loop_tiles_clear (k : fin MAP_SIZE) : decrypt (loop_tiles !!! k) = 0.
Proof. unfold loop_tiles. by rewrite vlookup_replicate. Qed.

Lemma healthy_genesis this : healthy this genesis.
Proof.
  split; [reflexivity|]. split.
  - intros h w Hin. cbn in Hin. set_solver.
  - intros a Hj. discriminate Hj.
Qed.

Lemma owned_kept this s s' b h :
  owned this s b h ->
  (next_handle (fhe s) <= next_handle (fhe s'))%N ->
  (forall w, (h, w) ∈ acl (fhe s) -> (h, w) ∈ acl (fhe s')) ->
  (forall w, N.even h = true -> (h, w) ∈ acl (fhe s') -> (h, w) ∈ acl (fhe s)) ->
  owned this s' b h.
Proof.
  intros (Hb & Ht & Hx) Hn Hup Hdown. split; [by apply Hup|]. split; [by apply Hup|].
  destruct Hx as [Hi|(He & Hlt & Hx)]; [by left|right].
  split; [done|]. split; [lia|]. intros w Hin. apply Hx. by apply Hdown.
Qed.

Lemma healthy_after_join this a s :
  healthy this s -> healthy this (after_join this a s).
Proof.
  intros (Heven & Hacl & Hpl). unfold after_join.
  assert (Hjoined : forall w, w = this \/ joined (player_of s w) = true ->
            w = this \/
            joined (player_of (after_join this a s) w) = true).
  { intros w [->|Hw]; [by left|right]. unfold after_join.
    destruct (decide (a = w)) as [->|Hne].
    - by rewrite player_of_store.
    - by rewrite player_of_store_ne. }
  unfold after_join in Hjoined.
  split; [exact Heven|]. split.
  - intros h w. cbn [fhe acl next_handle]. rewrite elem_of_join_grants.
    intros [[Hi Hw]|Hin].
    + split.
      * destruct Hw as [->| ->]; [right | by left]. by rewrite player_of_store.
      * intros He. by rewrite (initial_handle_odd h Hi) in He.
    + destruct (Hacl h w Hin) as [Hw He]. split; [by apply Hjoined | exact He].
  - intros b Hb. destruct (decide (a = b)) as [<-|Hne].
    + rewrite player_of_store. cbn [joined balance tiles handle_of].
      split; [|split].
      * split; [|split]; cbn [fhe acl];
          [rewrite elem_of_join_grants..|]; [left|left|left];
          (try split); unfold initial_handle; tauto.
      * intros k. rewrite loop_tiles_handle.
        split; [|split]; cbn [fhe acl];
          [rewrite elem_of_join_grants..|]; [left|left|left];
          (try split); unfold initial_handle; tauto.
      * by vm_compute.
    + rewrite player_of_store_ne in * by done.
      fold (player_of s b) in *. destruct (Hpl b Hb) as (Hbal & Htl & Hle).
      assert (Hkeep : forall h, owned this s b h ->
                owned this
                  (Chain (<[a:=mkPlayer true
                                 (Euint (constant_handle 32 STARTING_BALANCE)
                                        (STARTING_BALANCE mod 2 ^ 32)) loop_tiles]>
                            (_players s))
                     (Coprocessor (next_handle (fhe s))
                        (grant2 this a (constant_handle 32 STARTING_BALANCE)
                           (loop_grants this a (acl (fhe s))))
                        (oplog (fhe s) ++
                           TrivialEncrypt 32 STARTING_BALANCE
                             (constant_handle 32 STARTING_BALANCE) :: loop_ops))
                     (events s ++ [PlayerJoined a])) b h).
      { intros h Ho. eapply owned_kept; [exact Ho | cbn; lia | |];
          cbn [fhe acl]; intros w; rewrite elem_of_join_grants; [tauto|].
        intros He [[Hi _]|Hin]; [|done].
        by rewrite (initial_handle_odd h Hi) in He. }
      split; [by apply Hkeep|]. split; [|done]. intros k. apply Hkeep, Htl.
Qed.

Lemma healthy_after_build this a k t nb nt s :
  healthy this s -> joined (player_of s a) = true ->
  stored_by_build s a k t nb nt ->
  healthy this (after_build this a k nb nt s).
Proof.
  intros (Heven & Hacl & Hpl) Hj (Hnb & Hnt & Hdb & _).
  assert (Hjoined : forall w, w = this \/ joined (player_of s w) = true ->
            w = this \/
            joined (player_of (after_build this a k nb nt s) w) = true).
  { intros w [->|Hw]; [by left|right]. unfold after_build.
    destruct (decide (a = w)) as [->|Hne].
    - by rewrite player_of_store.
    - by rewrite player_of_store_ne. }
  assert (He26 : N.even (next_handle (fhe s) + 26) = true)
    by (by rewrite N.even_add, Heven).
  assert (He28 : N.even (next_handle (fhe s) + 28) = true)
    by (by rewrite N.even_add, Heven).
  assert (Hnew : forall h, (h = next_handle (fhe s) + 26 \/ h = next_handle (fhe s) + 28)%N ->
            owned this (after_build this a k nb nt s) a h).
  { intros h Hh. unfold after_build.
    split; [|split]; cbn [fhe acl next_handle];
      [rewrite elem_of_build_grants; tauto..|].
    right. split; [by destruct Hh as [->| ->]|]. split; [lia|].
    intros w. rewrite elem_of_build_grants. intros [[_ ?]|Hin]; [done|].
    destruct (Hacl h w Hin) as [_ Hlt].
    assert (h < next_handle (fhe s))%N by (apply Hlt; by destruct Hh as [->| ->]).
    lia. }
  assert (Hkeep : forall b h, owned this s b h ->
            owned this (after_build this a k nb nt s) b h).
  { intros b h Ho. unfold after_build.
    eapply owned_kept; [exact Ho | cbn; lia | |];
      cbn [fhe acl]; intros w; rewrite elem_of_build_grants; [tauto|].
    intros He [[Hh _]|Hin]; [|done].
    destruct Ho as (Hin & _ & _). destruct (Hacl h b Hin) as [_ Hlt].
    specialize (Hlt He). lia. }
  assert (Hown : player_of (after_build this a k nb nt s) a
                 = mkPlayer true nb (vinsert k nt (tiles (player_of s a))))
    by (unfold after_build; apply player_of_store).
  assert (Hsame : forall b, a <> b ->
            player_of (after_build this a k nb nt s) b = player_of s b)
    by (intros; unfold after_build; by rewrite player_of_store_ne).
  split; [|split].
  - unfold after_build. cbn [fhe next_handle]. by rewrite N.even_add, Heven.
  - intros h w Hin.
    change (next_handle (fhe (after_build this a k nb nt s)))
      with (next_handle (fhe s) + 30)%N.
    assert (Hin' : (h, w) ∈ build_grants this a (next_handle (fhe s)) (acl (fhe s)))
      by exact Hin.
    apply elem_of_build_grants in Hin' as [[Hh Hw]|Hold].
    + split; [|intros _; lia].
      destruct Hw as [->| ->]; [right | by left]. by rewrite Hown.
    + destruct (Hacl h w Hold) as [Hw He]. split; [by apply Hjoined|].
      intros Hev. specialize (He Hev). lia.
  - intros b Hb. destruct (decide (a = b)) as [<-|Hne].
    + destruct (Hpl a Hj) as (Hbal & Htl & Hle).
      rewrite Hown. cbn [joined balance tiles handle_of].
      split; [|split].
      * rewrite Hnb. apply Hnew. by left.
      * intros j. destruct (decide (k = j)) as [<-|Hkj].
        -- rewrite vlookup_insert, Hnt. apply Hnew. by right.
        -- rewrite vlookup_insert_ne by done. apply Hkeep, Htl.
      * rewrite Hdb. pose proof (price_range t). destruct (commits _ _); lia.
    + rewrite Hsame in * by done.
      destruct (Hpl b Hb) as (Hbal & Htl & Hle).
      split; [by apply Hkeep|]. split; [|done]. intros j. apply Hkeep, Htl.
Qed.

Lemma reachable_healthy this verifier s :
  reachable this verifier s -> healthy this s.
Proof.
  induction 1 as [|s s' Hreach IH Hstep].
  - apply healthy_genesis.
  - destruct Hstep as [a s s' Hrun | a i bt pf s s' Hrun].
    + apply joinGame_inv in Hrun as [_ ->]. by apply healthy_after_join.
    + apply build_inv in Hrun as (Hj & k & v & nb & nt & _ & _ & -> & Hst).
      by eapply healthy_after_build.
Qed.

(** ** Properties of the specification *)

Lemma build_effect this verifier a (k : fin MAP_SIZE) bt pf t s :
  joined (player_of s a) = true -> verifier bt pf = Some t -> 0 <= t < 256 ->
  exists nb nt,
    build this verifier a (fin_to_nat k) bt pf s = Ok (tt, after_build this a k nb nt s)
    /\ stored_by_build s a k t nb nt
    /\ player_of (after_build this a k nb nt s) a
       = mkPlayer true nb (vinsert k nt (tiles (player_of s a))).
Proof.
  intros Hj Hv Ht.
  destruct (run_build this verifier a k bt pf s t Hj Hv) as (nb & nt & Hrun & Hst).
  replace (t mod 2 ^ 8) with t in Hst by (symmetry; apply Z.mod_small; lia).
  exists nb, nt. split; [done|]. split; [done|]. apply player_of_store.
Qed.

Lemma select_in_build_ops (n hb ht : handle) :
  In (FheIfThenElse (n + 22) (n + 24) hb (n + 26))%N (build_ops n hb ht) /\
  In (FheIfThenElse (n + 22) n ht (n + 28))%N (build_ops n hb ht) /\
  In (FheSub hb (n + 16) (n + 24))%N (build_ops n hb ht).
Proof. unfold build_ops, cost_ops. cbn [app In]. tauto. Qed.

Lemma public_player_of s a :
  public_player (player_of s a)
  = default (public_player empty_player) ((public_player <$> _players s) !! a).
Proof. unfold player_of. rewrite lookup_fmap. by destruct (_players s !! a). Qed.

(** C3: the cost evaluator always returns; the cost it seals is 100, 200, 400
    or 1000 for the type codes 1, 2, 3, 4 and 0 for every other code; and it
    makes the same thirteen provider calls whatever the code is: a trivially
    encrypted zero accumulator first, then for each table entry in order the
    comparison, the encrypted cost and the select into the accumulator. *)
Theorem buildingCost_table (t : euint8) (s : chain) :
  exists cost s',
    _buildingCost t s = Ok (cost, s') /\
    decrypt cost = match decrypt t with
                   | 1 => 100 | 2 => 200 | 3 => 400 | 4 => 1000 | _ => 0
                   end /\
    oplog (fhe s') = oplog (fhe s) ++ cost_ops (next_handle (fhe s)) (handle_of t) /\
    _players s' = _players s /\ acl (fhe s') = acl (fhe s) /\ events s' = events s.
Proof.
  destruct (run_buildingCost t s) as (c & Hrun & _ & Hc).
  eexists _, _. split; [exact Hrun|]. cbn [_players fhe events acl oplog].
  split; [|repeat split; reflexivity].
  rewrite Hc. unfold price.
  destruct (decrypt t) as [|[[[]|[]|]|[[]|[]|]|]|]; reflexivity.
Qed.

(** C1: for a joined player and a slot in 0..8, a build whose input opens to
    the type [t] returns; if cost(t) is nonzero and covered by the balance, the
    new balance is the old one minus cost(t) and the slot holds [t]; if cost(t)
    is zero or exceeds the balance, the decrypted balance and slot are
    unchanged; in both cases the two stored ciphertexts are fresh outputs of
    select calls on one and the same condition, falling back on the old
    balance and the old slot. *)
Theorem build_commits_or_keeps this verifier a (k : fin MAP_SIZE) bt pf t s :
  joined (player_of s a) = true -> verifier bt pf = Some t -> 0 <= t < 256 ->
  exists s',
    build this verifier a (fin_to_nat k) bt pf s = Ok (tt, s') /\
    (price t <> 0 /\ price t <= decrypt (balance (player_of s a)) ->
       decrypt (balance (player_of s' a)) = decrypt (balance (player_of s a)) - price t /\
       decrypt (tiles (player_of s' a) !!! k) = t) /\
    (price t = 0 \/ decrypt (balance (player_of s a)) < price t ->
       decrypt (balance (player_of s' a)) = decrypt (balance (player_of s a)) /\
       decrypt (tiles (player_of s' a) !!! k) = decrypt (tiles (player_of s a) !!! k)) /\
    exists c x y,
      In (FheIfThenElse c x (handle_of (balance (player_of s a)))
            (handle_of (balance (player_of s' a)))) (oplog (fhe s')) /\
      In (FheIfThenElse c y (handle_of (tiles (player_of s a) !!! k))
            (handle_of (tiles (player_of s' a) !!! k))) (oplog (fhe s')) /\
      (next_handle (fhe s) <= handle_of (balance (player_of s' a)))%N /\
      (next_handle (fhe s) <= handle_of (tiles (player_of s' a) !!! k))%N.
Proof.
  intros Hj Hv Ht.
  destruct (build_effect this verifier a k bt pf t s Hj Hv Ht)
    as (nb & nt & Hrun & (Hnb & Hnt & Hdb & Hdt) & Hp).
  eexists. split; [exact Hrun|]. rewrite Hp. cbn [balance tiles].
  rewrite vlookup_insert. split; [|split].
  - intros Hc. apply commits_true in Hc. by rewrite Hdb, Hdt, Hc.
  - intros Hc. apply commits_false in Hc. by rewrite Hdb, Hdt, Hc.
  - rewrite Hnb, Hnt. unfold after_build. cbn [fhe oplog].
    destruct (select_in_build_ops (next_handle (fhe s))
                (handle_of (balance (player_of s a)))
                (handle_of (tiles (player_of s a) !!! k))) as (Hb & Htl & _).
    eexists _, _, _. rewrite !in_app_iff.
    split; [right; exact Hb|]. split; [right; exact Htl|]. lia.
Qed.

(** C2: for a player who has not joined, joinGame returns, sets the joined
    flag, stores as balance a trivial encryption of STARTING_BALANCE = 10000
    and in each of the nine slots a trivial encryption of 0; so the balance
    decrypts to 10000 and every slot to 0. *)
Theorem joinGame_initialises this a s :
  joined (player_of s a) = false ->
  exists s',
    joinGame this a s = Ok (tt, s') /\
    joined (player_of s' a) = true /\
    STARTING_BALANCE = 10000 /\
    decrypt (balance (player_of s' a)) = STARTING_BALANCE /\
    In (TrivialEncrypt 32 STARTING_BALANCE (handle_of (balance (player_of s' a))))
       (oplog (fhe s')) /\
    forall k : fin MAP_SIZE,
      decrypt (tiles (player_of s' a) !!! k) = 0 /\
      In (TrivialEncrypt 8 0 (handle_of (tiles (player_of s' a) !!! k))) (oplog (fhe s')).
Proof.
  intros Hj. exists (after_join this a s).
  split; [by apply run_joinGame|].
  unfold after_join. rewrite player_of_store. cbn [joined balance tiles fhe oplog handle_of].
  split; [done|]. split; [done|]. split; [done|].
  split; [rewrite in_app_iff; right; left; done|].
  intros k. split; [apply loop_tiles_clear|].
  rewrite loop_tiles_handle, in_app_iff. right. right. left. reflexivity.
Qed.

(** C4 as stated fails, twice over.  The constants joinGame encrypts have
    one ciphertext each, whoever joins: once alice and bob have both joined,
    bob, who is neither alice nor the contract, is granted alice's balance
    ciphertext and her slots.  And a build leaves ciphertexts it produced
    without any grant: nobody is granted the difference [balance - cost] that
    alice's build computes. *)
Lemma shared_constants_and_ungranted_difference :
  reachable demo_this demo_verifier demo_joined /\
  step demo_this demo_verifier demo_joined demo_two_joined /\
  joined (player_of demo_two_joined alice) = true /\
  bob <> alice /\ bob <> demo_this /\
  ((handle_of (balance (player_of demo_two_joined alice)), bob)
     ∈ acl (fhe demo_two_joined)) /\
  ((handle_of (tiles (player_of demo_two_joined alice) !!! 0%fin), bob)
     ∈ acl (fhe demo_two_joined)) /\
  step demo_this demo_verifier demo_joined demo_built /\
  In (FheSub (handle_of (balance (player_of demo_joined alice))) 18%N 26%N)
     (oplog (fhe demo_built)) /\
  ~ In (FheSub (handle_of (balance (player_of demo_joined alice))) 18%N 26%N)
       (oplog (fhe demo_joined)) /\
  forall w, (26%N, w) ∉ acl (fhe demo_built).
Proof.
  split.
  { eapply reachable_step; [apply reachable_genesis|].
    apply (step_joinGame demo_this demo_verifier alice). by vm_compute. }
  split; [apply (step_joinGame demo_this demo_verifier bob); by vm_compute|].
  split; [by vm_compute|]. split; [discriminate|]. split; [discriminate|].
  split; [apply (bool_decide_unpack _); by vm_compute|].
  split; [apply (bool_decide_unpack _); by vm_compute|].
  split.
  { apply (step_build demo_this demo_verifier alice 2%nat 3%N [3%N]). by vm_compute. }
  split; [vm_compute; tauto|].
  split; [vm_compute; intuition discriminate|].
  intros w Hin. apply elem_of_elements, list_elem_of_In in Hin.
  vm_compute in Hin. intuition discriminate.
Qed.

(** C4, amended: after every successful joinGame or build from a reachable
    chain, the balance ciphertext and each of the nine slot ciphertexts
    stored for a joined player, whether the call wrote them or left them,
    may be decrypted by that player and by the contract, and whoever else may
    decrypt one of them is a joined player; and every grant the call added
    is a grant to a joined player or to the contract on a ciphertext stored
    in that player's record, so that whatever else the call computed is left
    without a grant. *)
Theorem stored_ciphertexts_granted this verifier s s' :
  reachable this verifier s -> step this verifier s s' ->
  (forall a h, joined (player_of s' a) = true -> stored_for s' a h ->
     (h, a) ∈ acl (fhe s') /\ (h, this) ∈ acl (fhe s') /\
     forall w, (h, w) ∈ acl (fhe s') -> w = this \/ joined (player_of s' w) = true) /\
  (forall h w, (h, w) ∈ acl (fhe s') ->
     (h, w) ∈ acl (fhe s) \/
     exists b, joined (player_of s' b) = true /\ (w = b \/ w = this) /\
               stored_for s' b h).
Proof.
  intros Hreach Hstep. split.
  - intros a h Hj Hh.
    assert (Hh' : healthy this s').
    { apply (reachable_healthy this verifier). by eapply reachable_step. }
    destruct Hh' as (_ & Hacl & Hpl). destruct (Hpl a Hj) as (Hbal & Htl & _).
    assert (Ho : owned this s' a h).
    { destruct Hh as [->|[k ->]]; [exact Hbal | apply Htl]. }
    destruct Ho as (Ha & Ht & _).
    split; [exact Ha|]. split; [exact Ht|].
    intros w Hin. apply (Hacl h w Hin).
  - intros h w.
    destruct Hstep as [b s s' Hrun | b i bt pf s s' Hrun].
    + apply joinGame_inv in Hrun as [_ ->]. unfold after_join at 1.
      cbn [fhe acl]. rewrite elem_of_join_grants.
      intros [[Hi Hw]|Hin]; [right | by left].
      exists b. unfold stored_for, after_join. rewrite player_of_store.
      cbn [joined balance tiles handle_of].
      split; [done|]. split; [done|].
      destruct Hi as [->| ->]; [by left | right].
      exists 0%fin. by rewrite loop_tiles_handle.
    + apply build_inv in Hrun as (_ & k & v & nb & nt & _ & _ & -> & Hnb & Hnt & _).
      unfold after_build at 1. cbn [fhe acl]. rewrite elem_of_build_grants.
      intros [[Hh Hw]|Hin]; [right | by left].
      exists b. unfold stored_for, after_build. rewrite player_of_store.
      cbn [joined balance tiles].
      split; [done|]. split; [done|].
      destruct Hh as [->| ->]; [by left | right].
      exists k. by rewrite vlookup_insert.
Qed.

(** C5: for a joined caller, a slot in 0..8 and inputs whose proofs verify,
    build returns success whatever the sealed values are: from two chains
    that look the same from outside (same flags, handles, grants, provider
    log and events) but may seal different balances and slots, and with
    inputs that may open to different types, both runs succeed and end in
    chains that again look the same from outside. *)
Theorem build_oblivious this verifier a (k : fin MAP_SIZE) bt1 pf1 bt2 pf2 s1 s2 :
  public_view s1 = public_view s2 ->
  joined (player_of s1 a) = true ->
  is_Some (verifier bt1 pf1) -> is_Some (verifier bt2 pf2) ->
  exists s1' s2',
    build this verifier a (fin_to_nat k) bt1 pf1 s1 = Ok (tt, s1') /\
    build this verifier a (fin_to_nat k) bt2 pf2 s2 = Ok (tt, s2') /\
    public_view s1' = public_view s2'.
Proof.
  intros Hpv Hj1 [v1 Hv1] [v2 Hv2].
  assert (Hp : public_player (player_of s1 a) = public_player (player_of s2 a)).
  { rewrite !public_player_of. unfold public_view in Hpv. congruence. }
  unfold public_view in Hpv. injection Hpv as Hpl Hfhe Hev.
  unfold public_player in Hp. injection Hp as Hjj Hbh Hth.
  assert (Hj2 : joined (player_of s2 a) = true) by congruence.
  assert (Hk : handle_of (tiles (player_of s1 a) !!! k)
               = handle_of (tiles (player_of s2 a) !!! k)).
  { pose proof (f_equal (fun v => v !!! k) Hth) as Hk.
    cbn beta in Hk. by rewrite !vlookup_map in Hk. }
  destruct (run_build this verifier a k bt1 pf1 s1 v1 Hj1 Hv1)
    as (nb1 & nt1 & Hrun1 & Hnb1 & Hnt1 & _).
  destruct (run_build this verifier a k bt2 pf2 s2 v2 Hj2 Hv2)
    as (nb2 & nt2 & Hrun2 & Hnb2 & Hnt2 & _).
  eexists _, _. split; [exact Hrun1|]. split; [exact Hrun2|].
  unfold public_view, after_build. cbn [_players fhe events].
  rewrite !fmap_insert. unfold public_player at 1 3. cbn [joined balance tiles].
  rewrite !vmap_insert.
  rewrite Hnb1, Hnb2, Hnt1, Hnt2, Hpl, Hfhe, Hev, Hbh, Hth, Hk. reflexivity.
Qed.

(** C6 as stated fails: a caller who has not joined and passes an index
    outside 0..8 is rejected with NotJoined, not with IndexOutOfRange. *)
Lemma not_joined_hides_bad_index :
  joined (player_of genesis alice) = false /\ (MAP_SIZE <= 9)%nat /\
  build demo_this demo_verifier alice 9 3%N [3%N] genesis = Revert Join_first /\
  build demo_this demo_verifier alice 9 3%N [3%N] genesis <> Revert Invalid_tile.
Proof. split; [reflexivity|]. split; [unfold MAP_SIZE; lia|]. split; [reflexivity|discriminate]. Qed.

(** C6, amended: joinGame fails with AlreadyJoined exactly when the caller has
    joined; build fails with NotJoined exactly when the caller has not joined,
    with IndexOutOfRange exactly when the caller has joined and the index is
    outside 0..8, with InvalidProof exactly when the caller has joined, the
    index is in 0..8 and the proof does not verify; and a call that fails
    leaves the whole chain as it was. *)
Theorem rejections this verifier a i bt pf s :
  (joinGame this a s = Revert Already_joined <-> joined (player_of s a) = true) /\
  (build this verifier a i bt pf s = Revert Join_first
     <-> joined (player_of s a) = false) /\
  (build this verifier a i bt pf s = Revert Invalid_tile
     <-> joined (player_of s a) = true /\ (MAP_SIZE <= i)%nat) /\
  (build this verifier a i bt pf s = Revert Invalid_proof
     <-> joined (player_of s a) = true /\ (i < MAP_SIZE)%nat /\ verifier bt pf = None) /\
  (forall e, joinGame this a s = Revert e -> execute (joinGame this a) s = s) /\
  (forall e, build this verifier a i bt pf s = Revert e ->
     execute (build this verifier a i bt pf) s = s).
Proof.
  assert (Hbuild :
    (joined (player_of s a) = false /\ build this verifier a i bt pf s = Revert Join_first)
    \/ (joined (player_of s a) = true /\ (MAP_SIZE <= i)%nat /\
        build this verifier a i bt pf s = Revert Invalid_tile)
    \/ (joined (player_of s a) = true /\ (i < MAP_SIZE)%nat /\ verifier bt pf = None /\
        build this verifier a i bt pf s = Revert Invalid_proof)
    \/ (joined (player_of s a) = true /\ (i < MAP_SIZE)%nat /\
        is_Some (verifier bt pf) /\
        exists s', build this verifier a i bt pf s = Ok (tt, s'))).
  { destruct (joined (player_of s a)) eqn:Hj.
    2: { left. split; [done|]. by apply run_build_not_joined. }
    right. destruct (decide (i < MAP_SIZE)%nat) as [Hi|Hi].
    2: { left. split; [done|]. split; [lia|]. apply run_build_bad_index; [done|lia]. }
    right. destruct (verifier bt pf) as [v|] eqn:Hv.
    2: { left. repeat split; try done. by apply run_build_bad_proof. }
    right. repeat split; try done.
    destruct (run_build this verifier a (nat_to_fin Hi) bt pf s v Hj Hv)
      as (nb & nt & Hrun & _).
    rewrite fin_to_nat_to_fin in Hrun. eauto. }
  assert (Hjoin :
    (joined (player_of s a) = true /\ joinGame this a s = Revert Already_joined)
    \/ (joined (player_of s a) = false /\ exists s', joinGame this a s = Ok (tt, s'))).
  { destruct (joined (player_of s a)) eqn:Hj.
    - left. split; [done|]. by apply run_joinGame_again.
    - right. split; [done|]. eexists. by apply run_joinGame. }
  split; [|split; [|split; [|split; [|split]]]].
  - destruct Hjoin as [[-> ->]|[-> [s' ->]]]; split; congruence.
  - destruct Hbuild as [[-> ->]|[(-> & _ & ->)|[(-> & _ & _ & ->)|(-> & _ & _ & s' & ->)]]];
      split; congruence.
  - destruct Hbuild as [[-> ->]|[(-> & ? & ->)|[(-> & ? & _ & ->)|(-> & ? & _ & s' & ->)]]];
      intuition (try congruence; try lia).
  - destruct Hbuild
      as [[-> ->]|[(-> & ? & ->)|[(-> & ? & ? & ->)|(-> & ? & [v Hv] & s' & ->)]]];
      intuition (try congruence; try lia).
  - intros e He. unfold execute. by rewrite He.
  - intros e He. unfold execute. by rewrite He.
Qed.

(** C7 as stated fails: on a record that has not joined, the three read
    accessors return normally instead of rejecting. *)
Lemma accessors_answer_before_join :
  joined (player_of genesis alice) = false /\
  isJoined alice genesis = Ok (false, genesis) /\
  getBalance alice genesis = Ok (zero_handle, genesis) /\
  getTile alice 0 genesis = Ok (zero_handle, genesis).
Proof. repeat split; reflexivity. Qed.

(** C7, amended: for a record that has not joined, build is rejected with
    NotJoined whatever its arguments; the read accessors do not look at the
    flag: isJoined returns false, getBalance returns the stored balance
    handle, getTile returns the stored slot handle for an index in 0..8 and
    rejects with IndexOutOfRange only for an index outside 0..8. *)
Theorem before_join this verifier a s :
  joined (player_of s a) = false ->
  (forall i bt pf, build this verifier a i bt pf s = Revert Join_first) /\
  isJoined a s = Ok (false, s) /\
  getBalance a s = Ok (balance (player_of s a), s) /\
  (forall k : fin MAP_SIZE,
     getTile a (fin_to_nat k) s = Ok (tiles (player_of s a) !!! k, s)) /\
  (forall i, (MAP_SIZE <= i)%nat -> getTile a i s = Revert Invalid_tile).
Proof.
  intros Hj. split; [|split; [|split; [|split]]].
  - intros i bt pf. by apply run_build_not_joined.
  - unfold isJoined. tx_step. unfold mret, tx_ret. by rewrite Hj.
  - reflexivity.
  - intros k. unfold getTile.
    rewrite bool_decide_eq_true_2 by apply fin_to_nat_lt. tx_step.
    apply run_get_tile.
  - intros i Hi. unfold getTile. rewrite bool_decide_eq_false_2 by lia. reflexivity.
Qed.

(** C8: a build by [a] on index [i], whether it returns or is rolled back,
    leaves [a]'s joined flag, each slot of [a] other than [i] (the very
    ciphertext, not only its content) and the whole record of every other
    player [b] as they were; so does a joinGame by [a] for every other
    player's record. *)
Theorem calls_touch_only_their_own this verifier a b i (j : fin MAP_SIZE) bt pf s :
  b <> a -> fin_to_nat j <> i ->
  joined (player_of (execute (build this verifier a i bt pf) s) a)
    = joined (player_of s a) /\
  tiles (player_of (execute (build this verifier a i bt pf) s) a) !!! j
    = tiles (player_of s a) !!! j /\
  player_of (execute (build this verifier a i bt pf) s) b = player_of s b /\
  player_of (execute (joinGame this a) s) b = player_of s b.
Proof.
  intros Hba Hji. unfold execute.
  assert (Hjoin : match joinGame this a s with
                  | Ok (_, s') => player_of s' b = player_of s b
                  | Revert _ => True
                  end).
  { destruct (joinGame this a s) as [[[] s']|e] eqn:Hrun; [|done].
    apply joinGame_inv in Hrun as [_ ->]. unfold after_join.
    by rewrite player_of_store_ne. }
  destruct (build this verifier a i bt pf s) as [[[] s']|e] eqn:Hrun.
  - apply build_inv in Hrun as (Hj & k & v & nb & nt & Hk & _ & -> & _).
    unfold after_build. rewrite player_of_store, player_of_store_ne by done.
    cbn [joined tiles]. split; [done|]. split.
    + apply vlookup_insert_ne. intros ->. by apply Hji.
    + split; [done|]. by destruct (joinGame this a s) as [[[] ?]|].
  - split; [done|]. split; [done|]. split; [done|].
    by destruct (joinGame this a s) as [[[] ?]|].
Qed.

(** C9: in every reachable chain a joined player's balance decrypts to at most
    10000, and a build never raises it: the new balance is the old one, or the
    old one minus the evaluated cost with the cost covered; the subtraction is
    called on the provider in either case, yet whenever it would wrap (the
    cost exceeds the balance) the stored balance is the old one. *)
Theorem balance_bounded_and_monotone this verifier a (k : fin MAP_SIZE) bt pf t s :
  reachable this verifier s -> joined (player_of s a) = true ->
  verifier bt pf = Some t -> 0 <= t < 256 ->
  decrypt (balance (player_of s a)) <= 10000 /\
  exists s',
    build this verifier a (fin_to_nat k) bt pf s = Ok (tt, s') /\
    decrypt (balance (player_of s' a)) <= decrypt (balance (player_of s a)) /\
    (decrypt (balance (player_of s' a)) = decrypt (balance (player_of s a)) \/
     decrypt (balance (player_of s' a)) = decrypt (balance (player_of s a)) - price t /\
     price t <= decrypt (balance (player_of s a))) /\
    (decrypt (balance (player_of s a)) < price t ->
     decrypt (balance (player_of s' a)) = decrypt (balance (player_of s a))) /\
    (exists hc hs,
       In (FheSub (handle_of (balance (player_of s a))) hc hs) (oplog (fhe s'))) /\
    decrypt (balance (player_of s' a)) <= 10000.
Proof.
  intros Hreach Hj Hv Ht.
  destruct (reachable_healthy this verifier s Hreach) as (_ & _ & Hpl).
  destruct (Hpl a Hj) as (_ & _ & Hle). unfold STARTING_BALANCE in Hle.
  split; [done|].
  destruct (build_effect this verifier a k bt pf t s Hj Hv Ht)
    as (nb & nt & Hrun & (_ & _ & Hdb & _) & Hp).
  eexists. split; [exact Hrun|]. rewrite Hp. cbn [balance]. rewrite Hdb.
  pose proof (price_range t) as Hpr.
  assert (Hsub : exists hc hs,
            In (FheSub (handle_of (balance (player_of s a))) hc hs)
               (oplog (fhe (after_build this a k nb nt s)))).
  { unfold after_build. cbn [fhe oplog].
    destruct (select_in_build_ops (next_handle (fhe s))
                (handle_of (balance (player_of s a)))
                (handle_of (tiles (player_of s a) !!! k))) as (_ & _ & Hs).
    eexists _, _. rewrite in_app_iff. right. exact Hs. }
  destruct (commits _ _) eqn:Hc;
    [apply commits_true in Hc | apply commits_false in Hc];
    repeat split; try lia; exact Hsub.
Qed.

(** C10: build does not look at what the slot holds: on a slot of a joined
    player that already holds a nonzero type, a build with a recognised type
    [t] whose cost the balance covers returns, leaves [t] in the slot and
    takes cost(t) off the balance once more. *)
Theorem build_overwrites this verifier a (k : fin MAP_SIZE) bt pf t s :
  joined (player_of s a) = true ->
  decrypt (tiles (player_of s a) !!! k) <> 0 ->
  verifier bt pf = Some t -> t = 1 \/ t = 2 \/ t = 3 \/ t = 4 ->
  price t <= decrypt (balance (player_of s a)) ->
  exists s',
    build this verifier a (fin_to_nat k) bt pf s = Ok (tt, s') /\
    decrypt (tiles (player_of s' a) !!! k) = t /\
    decrypt (balance (player_of s' a)) = decrypt (balance (player_of s a)) - price t.
Proof.
  intros Hj _ Hv Ht Hafford.
  assert (Hr : 0 <= t < 256) by lia.
  destruct (build_effect this verifier a k bt pf t s Hj Hv Hr)
    as (nb & nt & Hrun & (_ & _ & Hdb & Hdt) & Hp).
  eexists. split; [exact Hrun|]. rewrite Hp. cbn [balance tiles].
  rewrite vlookup_insert.
  assert (Hc : commits (decrypt (balance (player_of s a))) t = true).
  { apply commits_true. split; [|done].
    destruct (price_cases t) as [[_ ?]|[[_ ?]|[[_ ?]|[[_ ?]|?]]]]; lia. }
  by rewrite Hdb, Hdt, Hc.
Qed.

(** ** The properties at work on a concrete deployment *)

(** The scenario of the specification: join, build type 3 on slot 2, then an
    unrecognised type 9 on the same slot. *)
Example join_build_then_unrecognised :
  decrypt (balance (player_of demo_joined alice)) = 10000 /\
  decrypt (balance (player_of demo_built alice)) = 9600 /\
  decrypt (tiles (player_of demo_built alice) !!! 2%fin) = 3 /\
  decrypt (balance (player_of
     (execute (build demo_this demo_verifier alice 2 9%N [9%N]) demo_built) alice)) = 9600 /\
  decrypt (tiles (player_of
     (execute (build demo_this demo_verifier alice 2 9%N [9%N]) demo_built) alice)
     !!! 2%fin) = 3.
Proof. by vm_compute. Qed.

Lemma demo_joined_reachable : reachable demo_this demo_verifier demo_joined.
Proof.
  eapply reachable_step; [apply reachable_genesis|].
  apply (step_joinGame demo_this demo_verifier alice). by vm_compute.
Defined.

Lemma demo_built_step : step demo_this demo_verifier demo_joined demo_built.
Proof.
  apply (step_build demo_this demo_verifier alice 2%nat 3%N [3%N]). by vm_compute.
Defined.

Lemma build_commits_or_keeps_witness :
  joined (player_of demo_joined alice) = true /\
  demo_verifier 3%N [3%N] = Some 3 /\ 0 <= 3 < 256 /\
  exists s',
    build demo_this demo_verifier alice 2 3%N [3%N] demo_joined = Ok (tt, s') /\
    decrypt (balance (player_of s' alice)) = 9600 /\
    decrypt (tiles (player_of s' alice) !!! 2%fin) = 3.
Proof.
  split; [reflexivity|]. split; [reflexivity|]. split; [lia|].
  destruct (build_commits_or_keeps demo_this demo_verifier alice 2%fin 3%N [3%N] 3
              demo_joined) as (s' & Hrun & Hc & _); [reflexivity | reflexivity | lia |].
  exists s'. split; [exact Hrun|].
  destruct Hc as [Hb Ht]; [split; by vm_compute|].
  split; [rewrite Hb; reflexivity | exact Ht].
Defined.

Lemma joinGame_initialises_witness :
  joined (player_of genesis alice) = false /\
  exists s',
    joinGame demo_this alice genesis = Ok (tt, s') /\
    joined (player_of s' alice) = true /\
    decrypt (balance (player_of s' alice)) = 10000 /\
    decrypt (tiles (player_of s' alice) !!! 0%fin) = 0.
Proof.
  split; [reflexivity|].
  destruct (joinGame_initialises demo_this alice genesis)
    as (s' & Hrun & Hj & _ & Hb & _ & Ht); [reflexivity|].
  exists s'. split; [exact Hrun|]. split; [exact Hj|].
  split; [exact Hb | apply Ht].
Defined.

Lemma stored_ciphertexts_granted_witness :
  reachable demo_this demo_verifier demo_joined /\
  step demo_this demo_verifier demo_joined demo_built /\
  joined (player_of demo_built alice) = true /\
  stored_for demo_built alice (handle_of (balance (player_of demo_built alice))) /\
  stored_for demo_built alice (handle_of (tiles (player_of demo_built alice) !!! 5%fin)) /\
  ((handle_of (balance (player_of demo_built alice)), alice) ∈ acl (fhe demo_built)) /\
  ((handle_of (balance (player_of demo_built alice)), demo_this)
     ∈ acl (fhe demo_built)) /\
  ((handle_of (tiles (player_of demo_built alice) !!! 5%fin), alice)
     ∈ acl (fhe demo_built)).
Proof.
  assert (Hb : stored_for demo_built alice
                 (handle_of (balance (player_of demo_built alice))))
    by (left; reflexivity).
  assert (Ht : stored_for demo_built alice
                 (handle_of (tiles (player_of demo_built alice) !!! 5%fin)))
    by (right; exists 5%fin; reflexivity).
  split; [apply demo_joined_reachable|]. split; [apply demo_built_step|].
  split; [reflexivity|]. split; [exact Hb|]. split; [exact Ht|].
  destruct (stored_ciphertexts_granted demo_this demo_verifier
              demo_joined demo_built demo_joined_reachable demo_built_step)
    as [Hst _].
  destruct (Hst alice _ eq_refl Hb) as (Ha & Hc & _).
  destruct (Hst alice _ eq_refl Ht) as (Ha' & _).
  split; [exact Ha|]. split; [exact Hc | exact Ha'].
Defined.

Lemma build_oblivious_witness :
  public_view demo_joined = public_view demo_poor /\
  joined (player_of demo_joined alice) = true /\
  is_Some (demo_verifier 3%N [3%N]) /\ is_Some (demo_verifier 4%N [4%N]) /\
  exists s1' s2',
    build demo_this demo_verifier alice 2 3%N [3%N] demo_joined = Ok (tt, s1') /\
    build demo_this demo_verifier alice 2 4%N [4%N] demo_poor = Ok (tt, s2') /\
    public_view s1' = public_view s2'.
Proof.
  assert (Hpv : public_view demo_joined = public_view demo_poor) by (by vm_compute).
  assert (H3 : is_Some (demo_verifier 3%N [3%N])) by (by eexists).
  assert (H4 : is_Some (demo_verifier 4%N [4%N])) by (by eexists).
  split; [exact Hpv|]. split; [reflexivity|]. split; [exact H3|]. split; [exact H4|].
  exact (build_oblivious demo_this demo_verifier alice 2%fin 3%N [3%N] 4%N [4%N]
           demo_joined demo_poor Hpv eq_refl H3 H4).
Defined.

Lemma before_join_witness :
  joined (player_of genesis alice) = false /\
  build demo_this demo_verifier alice 2 3%N [3%N] genesis = Revert Join_first /\
  isJoined alice genesis = Ok (false, genesis) /\
  getBalance alice genesis = Ok (zero_handle, genesis).
Proof.
  split; [reflexivity|].
  destruct (before_join demo_this demo_verifier alice genesis eq_refl)
    as (Hb & Hi & Hg & _).
  split; [apply Hb|]. split; [exact Hi | exact Hg].
Defined.

Lemma calls_touch_only_their_own_witness :
  bob <> alice /\ fin_to_nat (3%fin : fin MAP_SIZE) <> 2%nat /\
  tiles (player_of demo_built alice) !!! (3%fin : fin MAP_SIZE)
    = tiles (player_of demo_joined alice) !!! (3%fin : fin MAP_SIZE) /\
  player_of demo_built bob = player_of demo_joined bob.
Proof.
  assert (Hb : bob <> alice) by discriminate.
  assert (Hj : fin_to_nat (3%fin : fin MAP_SIZE) <> 2%nat) by discriminate.
  split; [exact Hb|]. split; [exact Hj|].
  destruct (calls_touch_only_their_own demo_this demo_verifier alice bob 2%nat
              (3%fin : fin MAP_SIZE) 3%N [3%N] demo_joined Hb Hj)
    as (_ & Ht & Hp & _).
  split; [exact Ht | exact Hp].
Defined.

Lemma balance_bounded_and_monotone_witness :
  reachable demo_this demo_verifier demo_joined /\
  joined (player_of demo_joined alice) = true /\
  demo_verifier 4%N [4%N] = Some 4 /\ 0 <= 4 < 256 /\
  decrypt (balance (player_of demo_joined alice)) <= 10000 /\
  exists s',
    build demo_this demo_verifier alice 0 4%N [4%N] demo_joined = Ok (tt, s') /\
    decrypt (balance (player_of s' alice))
      <= decrypt (balance (player_of demo_joined alice)).
Proof.
  assert (Hr : 0 <= 4 < 256) by lia.
  split; [apply demo_joined_reachable|]. split; [reflexivity|].
  split; [reflexivity|]. split; [exact Hr|].
  destruct (balance_bounded_and_monotone demo_this demo_verifier alice 0%fin 4%N [4%N] 4
              demo_joined demo_joined_reachable eq_refl eq_refl Hr)
    as (Hle & s' & Hrun & Hmono & _).
  split; [exact Hle|]. exists s'. split; [exact Hrun | exact Hmono].
Defined.

Lemma build_overwrites_witness :
  joined (player_of demo_built alice) = true /\
  decrypt (tiles (player_of demo_built alice) !!! 2%fin) = 3 /\
  demo_verifier 1%N [1%N] = Some 1 /\
  price 1 <= decrypt (balance (player_of demo_built alice)) /\
  exists s',
    build demo_this demo_verifier alice 2 1%N [1%N] demo_built = Ok (tt, s') /\
    decrypt (tiles (player_of s' alice) !!! 2%fin) = 1 /\
    decrypt (balance (player_of s' alice)) = 9500.
Proof.
  assert (Hp : price 1 <= decrypt (balance (player_of demo_built alice)))
    by (by vm_compute).
  split; [reflexivity|]. split; [reflexivity|]. split; [reflexivity|].
  split; [exact Hp|].
  destruct (build_overwrites demo_this demo_verifier alice 2%fin 1%N [1%N] 1 demo_built)
    as (s' & Hrun & Ht & Hb);
    [reflexivity | by vm_compute | reflexivity | by left | exact Hp |].
  exists s'. split; [exact Hrun|]. split; [exact Ht|]. rewrite Hb. reflexivity.
Defined.

(** ** Further properties of the contract *)

Lemma joinGame_outcome this a s :
  joinGame this a s = Revert Already_joined \/ exists s', joinGame this a s = Ok (tt, s').
Proof.
  destruct (joined (player_of s a)) eqn:Hj.
  - left. by apply run_joinGame_again.
  - right. eexists. by apply run_joinGame.
Qed.

Lemma build_outcome this verifier a i bt pf s :
  build this verifier a i bt pf s = Revert Join_first \/
  build this verifier a i bt pf s = Revert Invalid_tile \/
  build this verifier a i bt pf s = Revert Invalid_proof \/
  exists s', build this verifier a i bt pf s = Ok (tt, s').
Proof.
  destruct (joined (player_of s a)) eqn:Hj.
  2: { left. by apply run_build_not_joined. }
  right. destruct (decide (i < MAP_SIZE)%nat) as [Hi|Hi].
  2: { left. apply run_build_bad_index; [done | lia]. }
  right. destruct (verifier bt pf) as [v|] eqn:Hv.
  2: { left. by apply run_build_bad_proof. }
  right. destruct (run_build this verifier a (nat_to_fin Hi) bt pf s v Hj Hv)
    as (nb & nt & Hrun & _).
  rewrite fin_to_nat_to_fin in Hrun. eauto.
Qed.

Lemma getTile_outcome a i s :
  ((MAP_SIZE <= i)%nat /\ getTile a i s = Revert Invalid_tile) \/
  exists k : fin MAP_SIZE,
    fin_to_nat k = i /\ getTile a i s = Ok (tiles (player_of s a) !!! k, s).
Proof.
  unfold getTile. destruct (decide (i < MAP_SIZE)%nat) as [Hi|Hi].
  - right. exists (nat_to_fin Hi). rewrite fin_to_nat_to_fin. split; [done|].
    rewrite bool_decide_eq_true_2 by done. tx_step.
    rewrite <- (fin_to_nat_to_fin _ _ Hi) at 1. apply run_get_tile.
  - left. split; [lia|]. by rewrite bool_decide_eq_false_2.
Qed.

Lemma step_inv this verifier s s' :
  step this verifier s s' ->
  exists a,
    (joined (player_of s a) = false /\ s' = after_join this a s) \/
    (joined (player_of s a) = true /\
     exists k v nb nt,
       s' = after_build this a k nb nt s /\ stored_by_build s a k (v mod 2 ^ 8) nb nt).
Proof.
  intros [a s0 s0' Hrun | a i bt pf s0 s0' Hrun]; exists a.
  - left. by apply joinGame_inv in Hrun.
  - right. apply build_inv in Hrun as (Hj & k & v & nb & nt & _ & _ & -> & Hst).
    split; [done|]. by exists k, v, nb, nt.
Qed.

Lemma player_of_after_join_other this b s a :
  b <> a -> player_of (after_join this b s) a = player_of s a.
Proof. intros. unfold after_join. by rewrite player_of_store_ne. Qed.

Lemma player_of_after_build_other this b k nb nt s a :
  b <> a -> player_of (after_build this b k nb nt s) a = player_of s a.
Proof. intros. unfold after_build. by rewrite player_of_store_ne. Qed.

Lemma player_of_after_join this a s :
  player_of (after_join this a s) a
  = mkPlayer true (Euint (constant_handle 32 STARTING_BALANCE)
                         (STARTING_BALANCE mod 2 ^ 32))
             loop_tiles.
Proof. unfold after_join. apply player_of_store. Qed.

Lemma player_of_after_build this a k nb nt s :
  player_of (after_build this a k nb nt s) a
  = mkPlayer true nb (vinsert k nt (tiles (player_of s a))).
Proof. unfold after_build. apply player_of_store. Qed.

Lemma step_keeps_joined this verifier s s' a :
  step this verifier s s' -> joined (player_of s a) = true ->
  joined (player_of s' a) = true.
Proof.
  intros Hstep Hj.
  destruct (step_inv _ _ _ _ Hstep) as [b [[_ ->]|[_ (k & v & nb & nt & -> & _)]]];
    destruct (decide (b = a)) as [->|Hne].
  - by rewrite player_of_after_join.
  - by rewrite player_of_after_join_other.
  - by rewrite player_of_after_build.
  - by rewrite player_of_after_build_other.
Qed.

Lemma steps_keep_joined this verifier s s' a :
  steps this verifier s s' -> joined (player_of s a) = true ->
  joined (player_of s' a) = true.
Proof.
  induction 1 as [|s s' s'' _ IH Hstep]; [done|].
  intros Hj. eapply step_keeps_joined; [exact Hstep | by apply IH].
Qed.

Lemma step_balance_le this verifier s s' a :
  step this verifier s s' -> joined (player_of s a) = true ->
  decrypt (balance (player_of s' a)) <= decrypt (balance (player_of s a)).
Proof.
  intros Hstep Hj.
  destruct (step_inv _ _ _ _ Hstep)
    as [b [[Hb ->]|[_ (k & v & nb & nt & -> & (_ & _ & Hdb & _))]]];
    destruct (decide (b = a)) as [->|Hne].
  - congruence.
  - rewrite player_of_after_join_other by done. lia.
  - rewrite player_of_after_build. cbn [balance]. rewrite Hdb.
    pose proof (price_range (v mod 2 ^ 8)). destruct (commits _ _); lia.
  - rewrite player_of_after_build_other by done. lia.
Qed.

(** X1: no call ever trips an array bound check.  joinGame fails only with
    "Already joined"; build only with "Join first", "Invalid tile" or an
    invalid proof; getTile only with "Invalid tile", and then exactly for an
    index of 9 or more; isJoined and getBalance never fail; and the three
    reads hand the chain back as it was. *)
Theorem only_declared_failures this verifier a i bt pf s :
  (joinGame this a s = Revert Already_joined \/
   exists s', joinGame this a s = Ok (tt, s')) /\
  (build this verifier a i bt pf s = Revert Join_first \/
   build this verifier a i bt pf s = Revert Invalid_tile \/
   build this verifier a i bt pf s = Revert Invalid_proof \/
   exists s', build this verifier a i bt pf s = Ok (tt, s')) /\
  (((MAP_SIZE <= i)%nat /\ getTile a i s = Revert Invalid_tile) \/
   ((i < MAP_SIZE)%nat /\ exists c, getTile a i s = Ok (c, s))) /\
  (exists b, isJoined a s = Ok (b, s)) /\
  (exists c, getBalance a s = Ok (c, s)).
Proof.
  split; [apply joinGame_outcome|]. split; [apply build_outcome|]. split.
  - destruct (getTile_outcome a i s) as [?|(k & <- & Hk)]; [by left|].
    right. split; [apply fin_to_nat_lt | eauto].
  - split; eexists; reflexivity.
Qed.

(** X2: joining is for good.  After a successful joinGame by [a], whatever
    calls by whichever players follow, [a] is still joined and a further
    joinGame by [a] is rejected with "Already joined". *)
Theorem joined_for_good this verifier a s s' s'' :
  joinGame this a s = Ok (tt, s') -> steps this verifier s' s'' ->
  joined (player_of s'' a) = true /\
  joinGame this a s'' = Revert Already_joined.
Proof.
  intros Hrun Hsteps. apply joinGame_inv in Hrun as [_ ->].
  assert (Hj : joined (player_of s'' a) = true).
  { eapply steps_keep_joined; [exact Hsteps|]. by rewrite player_of_after_join. }
  split; [done|]. by apply run_joinGame_again.
Qed.

(** X3: a balance is never topped up.  Over any sequence of successful calls,
    by the player or by anybody else, a joined player's decrypted balance
    does not increase. *)
Theorem balance_never_recovers this verifier a s s' :
  steps this verifier s s' -> joined (player_of s a) = true ->
  decrypt (balance (player_of s' a)) <= decrypt (balance (player_of s a)).
Proof.
  induction 1 as [|s s' s'' Hsteps IH Hstep]; intros Hj; [lia|].
  pose proof (steps_keep_joined _ _ _ _ a Hsteps Hj) as Hj'.
  pose proof (step_balance_le _ _ _ _ a Hstep Hj'). specialize (IH Hj). lia.
Qed.

(** X4: a successful call by [a] keeps every grant there was and adds grants
    for nobody but [a] and the contract, and only on handles that provider
    calls made during that call returned. *)
Theorem calls_grant_only_caller_and_contract this verifier a s s' :
  (joinGame this a s = Ok (tt, s') \/
   exists i bt pf, build this verifier a i bt pf s = Ok (tt, s')) ->
  (forall h w, (h, w) ∈ acl (fhe s) -> (h, w) ∈ acl (fhe s')) /\
  (forall h w, (h, w) ∈ acl (fhe s') ->
     (h, w) ∈ acl (fhe s) \/
     ((w = a \/ w = this) /\
      exists ops op,
        oplog (fhe s') = oplog (fhe s) ++ ops /\ In op ops /\ op_result op = h)).
Proof.
  intros [Hrun | (i & bt & pf & Hrun)].
  - apply joinGame_inv in Hrun as [_ ->]. unfold after_join. cbn [fhe acl oplog].
    split; intros h w; rewrite elem_of_join_grants; [tauto|].
    intros [[Hi ?]|?]; [right | by left]. split; [done|].
    destruct Hi as [->| ->]; eexists _, _; (split; [reflexivity|]).
    + split; [left; reflexivity | reflexivity].
    + split; [right; left; reflexivity | reflexivity].
  - apply build_inv in Hrun as (_ & k & v & nb & nt & _ & _ & -> & _).
    unfold after_build. cbn [fhe acl oplog].
    split; intros h w; rewrite elem_of_build_grants; [tauto|].
    intros [[Hh ?]|?]; [right | by left]. split; [done|].
    destruct (select_in_build_ops (next_handle (fhe s))
                (handle_of (balance (player_of s a)))
                (handle_of (tiles (player_of s a) !!! k))) as (Hb & Htl & _).
    destruct Hh as [->| ->]; eexists _, _; (split; [reflexivity|]).
    + split; [exact Hb | reflexivity].
    + split; [exact Htl | reflexivity].
Qed.


Lemma reachable_untouched this verifier s :
  reachable this verifier s -> untouched s.
Proof.
  induction 1 as [|s s' _ IH Hstep].
  - intros a _. unfold player_of, genesis. cbn. by rewrite lookup_empty.
  - intros a Hj.
    destruct (step_inv _ _ _ _ Hstep) as [b [[_ ->]|[_ (k & v & nb & nt & -> & _)]]];
      destruct (decide (b = a)) as [->|Hne].
    + by rewrite player_of_after_join in Hj.
    + rewrite player_of_after_join_other in * by done. by apply IH.
    + by rewrite player_of_after_build in Hj.
    + rewrite player_of_after_build_other in * by done. by apply IH.
Qed.

(** X5: in a reachable chain the record of an identity that has not joined
    was never written: it is the all-zero record, so getBalance and getTile
    hand out the zero handle for it. *)
Theorem non_member_reads_zero this verifier a s :
  reachable this verifier s -> joined (player_of s a) = false ->
  player_of s a = empty_player /\
  getBalance a s = Ok (zero_handle, s) /\
  forall k : fin MAP_SIZE, getTile a (fin_to_nat k) s = Ok (zero_handle, s).
Proof.
  intros Hreach Hj. pose proof (reachable_untouched _ _ _ Hreach a Hj) as He.
  split; [done|]. split.
  - unfold getBalance. tx_step. unfold mret, tx_ret. by rewrite He.
  - intros k. destruct (getTile_outcome a (fin_to_nat k) s)
      as [[Hk _]|(k' & Hk & Hrun)].
    + pose proof (fin_to_nat_lt k). lia.
    + apply (inj fin_to_nat) in Hk as ->. rewrite Hrun, He.
      unfold empty_player. cbn [tiles]. by rewrite vlookup_replicate.
Qed.

(** ** What the decrypted record always satisfies *)

Lemma sum_vinsert {A n} (f : A -> Z) (k : fin n) (x : A) (v : vec A n) :
  foldr (fun c acc => f c + acc) 0 (vec_to_list (vinsert k x v))
  = foldr (fun c acc => f c + acc) 0 (vec_to_list v) - f (v !!! k) + f x.
Proof.
  revert k. induction v as [|y n v IH]; intros k; inv_fin k.
  - cbn. lia.
  - intros k. cbn. rewrite IH. lia.
Qed.

Lemma price_divisible t : (100 | price t).
Proof.
  destruct (price_cases t) as [[_ ->]|[[_ ->]|[[_ ->]|[[_ ->]|(_ & _ & _ & _ & ->)]]]].
  - by exists 1.
  - by exists 2.
  - by exists 4.
  - by exists 10.
  - by exists 0.
Qed.

Lemma price_recognised t : price t <> 0 -> 1 <= t <= 4.
Proof. destruct (price_cases t) as [?|[?|[?|[?|?]]]]; lia. Qed.

Lemma thrifty_after_join this a s : thrifty s -> thrifty (after_join this a s).
Proof.
  intros IH b Hb. destruct (decide (a = b)) as [<-|Hne].
  - rewrite player_of_after_join in *. cbn [balance tiles].
    split; [|split].
    + intros k. rewrite loop_tiles_clear. lia.
    + exists 100. reflexivity.
    + reflexivity.
  - rewrite player_of_after_join_other in * by done. by apply IH.
Qed.

Lemma thrifty_after_build this a k t nb nt s :
  thrifty s -> joined (player_of s a) = true -> stored_by_build s a k t nb nt ->
  thrifty (after_build this a k nb nt s).
Proof.
  intros IH Hj (_ & _ & Hdb & Hdt) b Hb. destruct (decide (a = b)) as [<-|Hne].
  - rewrite player_of_after_build in *. cbn [balance tiles].
    destruct (IH a Hj) as (Htl & Hdiv & Hsum).
    unfold map_value in *. cbn [tiles]. rewrite sum_vinsert. cbn beta.
    rewrite Hdb, Hdt.
    pose proof (price_range t) as Hpr.
    pose proof (price_range (decrypt (tiles (player_of s a) !!! k))) as Hpo.
    destruct (commits _ _) eqn:Hc.
    + apply commits_true in Hc as [Hne Hle]. split; [|split].
      * intros j. destruct (decide (k = j)) as [<-|Hkj].
        -- rewrite vlookup_insert, Hdt.
           pose proof (price_recognised t Hne). lia.
        -- rewrite vlookup_insert_ne by done. apply Htl.
      * apply Z.divide_sub_r; [done | apply price_divisible].
      * unfold euint8 in *. lia.
    + split; [|split; [done | unfold euint8 in *; lia]].
      intros j. destruct (decide (k = j)) as [<-|Hkj].
      * rewrite vlookup_insert, Hdt. apply Htl.
      * rewrite vlookup_insert_ne by done. apply Htl.
  - rewrite player_of_after_build_other in * by done. by apply IH.
Qed.

Lemma reachable_thrifty this verifier s : reachable this verifier s -> thrifty s.
Proof.
  induction 1 as [|s s' _ IH Hstep].
  - intros a Hj. discriminate Hj.
  - destruct (step_inv _ _ _ _ Hstep) as [b [[_ ->]|[Hj (k & v & nb & nt & -> & Hst)]]].
    + by apply thrifty_after_join.
    + by eapply thrifty_after_build.
Qed.

(** X6: in a reachable chain every slot of a joined player decrypts to 0 or
    to the id of a building of the front end's catalogue: an unrecognised
    type is never stored. *)
Theorem slots_hold_catalogue_ids this verifier a (k : fin MAP_SIZE) s :
  reachable this verifier s -> joined (player_of s a) = true ->
  decrypt (tiles (player_of s a) !!! k) = 0 \/
  exists b, In b UI.BUILDINGS /\ UI.id b = decrypt (tiles (player_of s a) !!! k).
Proof.
  intros Hreach Hj.
  destruct (reachable_thrifty _ _ _ Hreach a Hj) as (Htl & _ & _).
  specialize (Htl k).
  assert (Hc : decrypt (tiles (player_of s a) !!! k) = 0
               \/ decrypt (tiles (player_of s a) !!! k) = 1
               \/ decrypt (tiles (player_of s a) !!! k) = 2
               \/ decrypt (tiles (player_of s a) !!! k) = 3
               \/ decrypt (tiles (player_of s a) !!! k) = 4) by lia.
  destruct Hc as [-> | [-> | [-> | [-> | ->]]]]; [by left|right..]; eexists.
  - split; [left; reflexivity | reflexivity].
  - split; [right; left; reflexivity | reflexivity].
  - split; [right; right; left; reflexivity | reflexivity].
  - split; [right; right; right; left; reflexivity | reflexivity].
Qed.

(** X7: in a reachable chain a joined player's balance decrypts to a
    multiple of 100 between 0 and 10000. *)
Theorem balance_in_hundreds this verifier a s :
  reachable this verifier s -> joined (player_of s a) = true ->
  (100 | decrypt (balance (player_of s a))) /\
  0 <= decrypt (balance (player_of s a)) <= 10000.
Proof.
  intros Hreach Hj.
  destruct (reachable_thrifty _ _ _ Hreach a Hj) as (_ & Hdiv & Hsum).
  split; [done|].
  destruct (reachable_healthy _ _ _ Hreach) as (_ & _ & Hpl).
  destruct (Hpl a Hj) as (_ & _ & Hle). unfold STARTING_BALANCE in Hle.
  pose proof (decrypt_range (balance (player_of s a))). lia.
Qed.

(** X8: nothing is refunded and nothing is free.  In a reachable chain the
    balance of a joined player plus the table price of the buildings now
    standing on the player's map is at most the starting balance. *)
Theorem map_value_within_spending this verifier a s :
  reachable this verifier s -> joined (player_of s a) = true ->
  0 <= map_value (player_of s a) /\
  decrypt (balance (player_of s a)) + map_value (player_of s a) <= 10000.
Proof.
  intros Hreach Hj.
  destruct (reachable_thrifty _ _ _ Hreach a Hj) as (_ & _ & Hsum).
  split; [|exact Hsum].
  unfold map_value. generalize (vec_to_list (tiles (player_of s a))).
  intros l. induction l as [|c l IH]; cbn; [lia|].
  pose proof (price_range (decrypt c)). lia.
Qed.

(** ** The event log *)

Lemma joins_logged_app a log e :
  joins_logged a (log ++ [e])
  = (joins_logged a log + if decide (e = PlayerJoined a) then 1 else 0)%nat.
Proof.
  unfold joins_logged. rewrite filter_app, length_app. f_equal.
  rewrite filter_cons, filter_nil. by destruct (decide _).
Qed.

Lemma reachable_log_faithful this verifier s :
  reachable this verifier s -> log_faithful s.
Proof.
  induction 1 as [|s s' Hreach [IHj IHb] Hstep].
  - split; [reflexivity|]. intros a i [].
  - destruct (step_inv _ _ _ _ Hstep)
      as [b [[Hb ->]|[Hb (k & v & nb & nt & -> & _)]]]; split.
    + intros a. unfold after_join at 1. cbn [events]. rewrite joins_logged_app, IHj.
      destruct (decide (b = a)) as [->|Hne].
      * rewrite player_of_after_join, Hb. cbn [joined]. by rewrite decide_True.
      * rewrite player_of_after_join_other by done.
        rewrite decide_False by congruence. lia.
    + intros a i. unfold after_join at 1. cbn [events]. rewrite in_app_iff.
      intros [Hin|[Heq|[]]]; [|discriminate].
      destruct (IHb a i Hin) as [Hi Hj]. split; [done|].
      destruct (decide (b = a)) as [->|Hne]; [congruence|].
      by rewrite player_of_after_join_other.
    + intros a. unfold after_build at 1. cbn [events]. rewrite joins_logged_app, IHj.
      rewrite decide_False by discriminate.
      destruct (decide (b = a)) as [->|Hne].
      * rewrite player_of_after_build, Hb. cbn [joined]. lia.
      * rewrite player_of_after_build_other by done. lia.
    + intros a i. unfold after_build at 1. cbn [events]. rewrite in_app_iff.
      intros [Hin|[Heq|[]]].
      * destruct (IHb a i Hin) as [Hi Hj]. split; [done|].
        destruct (decide (b = a)) as [->|Hne].
        -- by rewrite player_of_after_build.
        -- by rewrite player_of_after_build_other.
      * injection Heq as -> <-. split; [apply fin_to_nat_lt|].
        by rewrite player_of_after_build.
Qed.

(** X9: the event log tells who is in the game.  In a reachable chain the
    log holds exactly one PlayerJoined event for each joined player and none
    for anybody else, and every BuildingPlaced event names a joined player
    and an index in 0..8. *)
Theorem event_log_matches_state this verifier a i s :
  reachable this verifier s ->
  joins_logged a (events s) = (if joined (player_of s a) then 1 else 0)%nat /\
  (In (BuildingPlaced a i) (events s) ->
     (i < MAP_SIZE)%nat /\ joined (player_of s a) = true).
Proof.
  intros Hreach. destruct (reachable_log_faithful _ _ _ Hreach) as [Hj Hb].
  split; [apply Hj | apply Hb].
Qed.

(** ** The front end and the tasks against the contract *)

(** X10: the front end's price list is what the contract charges.  For every
    type the cost evaluator returns either the cost of the catalogue entry
    with that id, or, when the catalogue has no such id, zero. *)
Theorem catalogue_prices_are_charged (t : euint8) (s : chain) :
  exists c s',
    _buildingCost t s = Ok (c, s') /\
    ((exists b, In b UI.BUILDINGS /\ UI.id b = decrypt t /\ UI.cost b = decrypt c) \/
     ((forall b, In b UI.BUILDINGS -> UI.id b <> decrypt t) /\ decrypt c = 0)).
Proof.
  destruct (run_buildingCost t s) as (c & Hrun & _ & Hc).
  eexists _, _. split; [exact Hrun|]. rewrite Hc.
  destruct (price_cases (decrypt t))
    as [[Ht ->]|[[Ht ->]|[[Ht ->]|[[Ht ->]|(H1 & H2 & H3 & H4 & ->)]]]].
  - left. eexists. split; [left; reflexivity|]. split; [symmetry; exact Ht | reflexivity].
  - left. eexists. split; [right; left; reflexivity|]. split; [symmetry; exact Ht | reflexivity].
  - left. eexists. split; [right; right; left; reflexivity|]. split; [symmetry; exact Ht | reflexivity].
  - left. eexists. split; [right; right; right; left; reflexivity|]. split; [symmetry; exact Ht | reflexivity].
  - right. split; [|reflexivity].
    intros b [<-|[<-|[<-|[<-|[]]]]]; cbn [UI.id]; congruence.
Qed.

(** X11: the front end reads the whole map and nothing beyond it.  For a
    connected account the batch holds one getTile read per slot, nine in all,
    each on the configured contract and for that account; on any chain each
    of these reads returns the stored slot handle, none is rejected; without
    an account, or without a configured contract, the batch is empty. *)
Theorem tile_reads_cover_the_map (contract account : address) (s : chain) :
  length (UI.tileContracts contract (Some account) true) = MAP_SIZE /\
  (forall k : fin MAP_SIZE,
     UI.tileContracts contract (Some account) true !! fin_to_nat k
       = Some (UI.ReadCall contract "getTile" (account, fin_to_nat k)) /\
     getTile account (fin_to_nat k) s = Ok (tiles (player_of s account) !!! k, s)) /\
  UI.tileContracts contract None true = [] /\
  UI.tileContracts contract (Some account) false = [].
Proof.
  split; [reflexivity|]. split; [|split; reflexivity].
  intros k. split.
  - unfold MAP_SIZE in k. repeat (inv_fin k; [reflexivity | intros k]). inv_fin k.
  - destruct (getTile_outcome account (fin_to_nat k) s) as [[Hk _]|(k' & Hk & Hrun)].
    + pose proof (fin_to_nat_lt k). lia.
    + by apply (inj fin_to_nat) in Hk as ->.
Qed.

Lemma isInteger_floor q :
  Tasks.isInteger (Tasks.Finite q) = true ->
  QArith_base.Qeq q (QArith_base.inject_Z (Qround.Qfloor q)).
Proof.
  cbn. intros H. apply QArith_base.Qeq_bool_iff in H. by symmetry.
Qed.

Lemma check_range (x : Tasks.number) (lo hi : Z) :
  negb (Tasks.isInteger x) || Tasks.lt x lo || Tasks.gt x hi = false <->
  exists q, x = Tasks.Finite q /\
            QArith_base.Qeq q (QArith_base.inject_Z (Tasks.sent x)) /\
            lo <= Tasks.sent x <= hi.
Proof.
  rewrite !orb_false_iff, negb_false_iff. split.
  - intros [[Hint Hlt] Hgt]. destruct x as [| |q]; try discriminate.
    exists q. split; [done|]. pose proof (isInteger_floor q Hint) as Hq.
    split; [exact Hq|]. cbn [Tasks.sent].
    cbn in Hlt, Hgt. apply negb_false_iff in Hlt, Hgt.
    apply QArith_base.Qle_bool_iff in Hlt, Hgt.
    rewrite Hq in Hlt, Hgt. rewrite <- QArith_base.Zle_Qle in Hlt, Hgt. lia.
  - intros (q & -> & Hq & Hr). cbn [Tasks.sent] in *.
    assert (Hi : Tasks.isInteger (Tasks.Finite q) = true).
    { cbn. apply QArith_base.Qeq_bool_iff. by symmetry. }
    split; [split; [done|]|]; cbn; apply negb_false_iff;
      apply QArith_base.Qle_bool_iff; rewrite Hq, <- QArith_base.Zle_Qle; lia.
Qed.

(** X12: the tasks' argument checks let through exactly the whole numbers in
    range: [--tile] passes if and only if it is a finite number equal to an
    integer from 0 to 8, [--type] if and only if it is one from 1 to 4;
    not-a-number, the infinities and fractions are refused. *)
Theorem task_checks_accept_the_range (x : Tasks.number) :
  (Tasks.check_tile x = None <->
     exists q, x = Tasks.Finite q /\
               QArith_base.Qeq q (QArith_base.inject_Z (Tasks.sent x)) /\
               0 <= Tasks.sent x <= 8) /\
  (Tasks.check_type x = None <->
     exists q, x = Tasks.Finite q /\
               QArith_base.Qeq q (QArith_base.inject_Z (Tasks.sent x)) /\
               1 <= Tasks.sent x <= 4).
Proof.
  unfold Tasks.check_tile, Tasks.check_type.
  rewrite <- (check_range x 0 8), <- (check_range x 1 4).
  split; destruct (_ || _ || _); split; congruence.
Qed.

(** X13: what task:build lets through, the contract takes.  If [--tile] and
    [--type] pass the task's checks, the signer has joined and the encrypted
    input opens to the checked type, then build returns, the type is a
    recognised one, and when the balance covers its cost the slot ends up
    holding it and the balance pays it. *)
Theorem checked_task_build_goes_through this verifier a tile type bt pf s :
  Tasks.check_tile tile = None -> Tasks.check_type type = None ->
  joined (player_of s a) = true -> verifier bt pf = Some (Tasks.sent type) ->
  exists (k : fin MAP_SIZE) s',
    fin_to_nat k = Z.to_nat (Tasks.sent tile) /\
    build this verifier a (Z.to_nat (Tasks.sent tile)) bt pf s = Ok (tt, s') /\
    price (Tasks.sent type) <> 0 /\
    (price (Tasks.sent type) <= decrypt (balance (player_of s a)) ->
       decrypt (tiles (player_of s' a) !!! k) = Tasks.sent type /\
       decrypt (balance (player_of s' a))
         = decrypt (balance (player_of s a)) - price (Tasks.sent type)).
Proof.
  intros Htile Htype Hj Hv.
  unfold Tasks.check_tile in Htile. unfold Tasks.check_type in Htype.
  destruct (negb (Tasks.isInteger tile) || _ || _) eqn:Etile; [discriminate|].
  destruct (negb (Tasks.isInteger type) || _ || _) eqn:Etype; [discriminate|].
  apply check_range in Etile as (_ & _ & _ & Hi).
  apply check_range in Etype as (_ & _ & _ & Ht).
  assert (Hlt : (Z.to_nat (Tasks.sent tile) < MAP_SIZE)%nat) by (unfold MAP_SIZE; lia).
  destruct (build_effect this verifier a (nat_to_fin Hlt) bt pf (Tasks.sent type) s
              Hj Hv) as (nb & nt & Hrun & (_ & _ & Hdb & Hdt) & Hp); [lia|].
  rewrite fin_to_nat_to_fin in Hrun.
  exists (nat_to_fin Hlt). eexists. split; [apply fin_to_nat_to_fin|].
  split; [exact Hrun|].
  assert (Hpr : price (Tasks.sent type) <> 0).
  { destruct (price_cases (Tasks.sent type)) as [?|[?|[?|[?|?]]]]; lia. }
  split; [exact Hpr|]. intros Hle. rewrite Hp. cbn [balance tiles].
  rewrite vlookup_insert, Hdb, Hdt.
  assert (commits (decrypt (balance (player_of s a))) (Tasks.sent type) = true) as ->
    by (by apply commits_true).
  done.
Qed.

(** ** The test suites' expectations, for every chain *)

(** X14: the Sepolia test's flow.  From any chain, joining if isJoined says
    no and then building type 1 on slot 0 with a valid proof always returns;
    the balance read before the build drops by 100 and slot 0 holds 1 when
    that balance is at least 100, and stays as it is otherwise. *)
Theorem join_if_needed_then_build this verifier a bt pf s :
  verifier bt pf = Some 1 ->
  joined (player_of (join_if_needed this a s) a) = true /\
  exists s',
    build this verifier a 0 bt pf (join_if_needed this a s) = Ok (tt, s') /\
    (100 <= decrypt (balance (player_of (join_if_needed this a s) a)) ->
       decrypt (balance (player_of s' a))
         = decrypt (balance (player_of (join_if_needed this a s) a)) - 100 /\
       decrypt (tiles (player_of s' a) !!! 0%fin) = 1) /\
    (decrypt (balance (player_of (join_if_needed this a s) a)) < 100 ->
       decrypt (balance (player_of s' a))
         = decrypt (balance (player_of (join_if_needed this a s) a))).
Proof.
  intros Hv.
  assert (Hj : joined (player_of (join_if_needed this a s) a) = true).
  { unfold join_if_needed, isJoined. erewrite bind_ok by reflexivity.
    unfold mret, tx_ret. destruct (joined (player_of s a)) eqn:Hj; [done|].
    unfold execute. rewrite run_joinGame by done. by rewrite player_of_after_join. }
  split; [exact Hj|].
  destruct (build_effect this verifier a 0%fin bt pf 1 (join_if_needed this a s)
              Hj Hv) as (nb & nt & Hrun & (_ & _ & Hdb & Hdt) & Hp); [lia|].
  eexists. split; [exact Hrun|]. rewrite Hp. cbn [balance tiles].
  rewrite vlookup_insert, Hdb, Hdt. change (price 1) with 100.
  split; intros Hb.
  - assert (commits (decrypt (balance (player_of (join_if_needed this a s) a))) 1
            = true) as -> by (apply commits_true; change (price 1) with 100; lia).
    done.
  - assert (commits (decrypt (balance (player_of (join_if_needed this a s) a))) 1
            = false) as -> by (apply commits_false; change (price 1) with 100; lia).
    done.
Qed.

(** X15: the first build is always affordable.  For a player who has not
    joined, joinGame followed by a build on any slot with any type [t] both
    return; the balance ends at 10000 minus the cost of [t], the slot holds
    [t] if [t] is recognised and 0 if not, and every other slot holds 0. *)
Theorem first_build_after_join this verifier a (k : fin MAP_SIZE) bt pf t s :
  joined (player_of s a) = false -> verifier bt pf = Some t -> 0 <= t < 256 ->
  exists s1 s2,
    joinGame this a s = Ok (tt, s1) /\
    build this verifier a (fin_to_nat k) bt pf s1 = Ok (tt, s2) /\
    decrypt (balance (player_of s2 a)) = 10000 - price t /\
    decrypt (tiles (player_of s2 a) !!! k) = (if price t =? 0 then 0 else t) /\
    forall j : fin MAP_SIZE, j <> k -> decrypt (tiles (player_of s2 a) !!! j) = 0.
Proof.
  intros Hj Hv Ht.
  exists (after_join this a s).
  assert (Hj1 : joined (player_of (after_join this a s) a) = true)
    by (by rewrite player_of_after_join).
  destruct (build_effect this verifier a k bt pf t (after_join this a s) Hj1 Hv Ht)
    as (nb & nt & Hrun & (_ & _ & Hdb & Hdt) & Hp).
  eexists. split; [by apply run_joinGame|]. split; [exact Hrun|].
  rewrite Hp. cbn [balance tiles]. rewrite vlookup_insert, Hdb, Hdt.
  rewrite player_of_after_join. cbn [balance tiles].
  rewrite loop_tiles_clear.
  change (decrypt (Euint (constant_handle 32 STARTING_BALANCE)
                         (STARTING_BALANCE mod 2 ^ 32)))
    with 10000.
  pose proof (price_range t) as Hpr.
  split; [|split].
  - destruct (commits 10000 t) eqn:Hc; [done|].
    apply commits_false in Hc. lia.
  - destruct (Z.eqb_spec (price t) 0) as [H0|H0].
    + assert (commits 10000 t = false) as -> by (apply commits_false; by left).
      done.
    + assert (commits 10000 t = true) as -> by (apply commits_true; lia). done.
  - intros j Hjk. rewrite vlookup_insert_ne by done. apply loop_tiles_clear.
Qed.

(** ** The further properties on the concrete deployment *)

Lemma demo_built_reachable : reachable demo_this demo_verifier demo_built.
Proof. exact (reachable_step _ _ _ _ demo_joined_reachable demo_built_step). Defined.

Lemma demo_steps : steps demo_this demo_verifier demo_joined demo_built.
Proof. exact (steps_more _ _ _ _ _ (steps_none _ _ _) demo_built_step). Defined.

Lemma joined_for_good_witness :
  joinGame demo_this alice genesis = Ok (tt, demo_joined) /\
  steps demo_this demo_verifier demo_joined demo_built /\
  joined (player_of demo_built alice) = true /\
  joinGame demo_this alice demo_built = Revert Already_joined.
Proof.
  assert (Hrun : joinGame demo_this alice genesis = Ok (tt, demo_joined))
    by (by vm_compute).
  split; [exact Hrun|]. split; [exact demo_steps|].
  exact (joined_for_good demo_this demo_verifier alice genesis demo_joined demo_built
           Hrun demo_steps).
Defined.

Lemma balance_never_recovers_witness :
  steps demo_this demo_verifier demo_joined demo_built /\
  joined (player_of demo_joined alice) = true /\
  decrypt (balance (player_of demo_built alice))
    <= decrypt (balance (player_of demo_joined alice)).
Proof.
  split; [exact demo_steps|]. split; [reflexivity|].
  exact (balance_never_recovers demo_this demo_verifier alice demo_joined demo_built
           demo_steps eq_refl).
Defined.

Lemma calls_grant_only_caller_and_contract_witness :
  (joinGame demo_this alice demo_joined = Ok (tt, demo_built) \/
   exists i bt pf, build demo_this demo_verifier alice i bt pf demo_joined
                   = Ok (tt, demo_built)) /\
  (forall h w, (h, w) ∈ acl (fhe demo_built) ->
     (h, w) ∈ acl (fhe demo_joined) \/
     ((w = alice \/ w = demo_this) /\
      exists ops op, oplog (fhe demo_built) = oplog (fhe demo_joined) ++ ops /\
                     In op ops /\ op_result op = h)).
Proof.
  assert (H : joinGame demo_this alice demo_joined = Ok (tt, demo_built) \/
              exists i bt pf, build demo_this demo_verifier alice i bt pf demo_joined
                              = Ok (tt, demo_built)).
  { right. exists 2%nat, 3%N, [3%N]. by vm_compute. }
  split; [exact H|].
  exact (proj2 (calls_grant_only_caller_and_contract demo_this demo_verifier alice
                  demo_joined demo_built H)).
Defined.

Lemma non_member_reads_zero_witness :
  reachable demo_this demo_verifier demo_built /\
  joined (player_of demo_built bob) = false /\
  player_of demo_built bob = empty_player /\
  getBalance bob demo_built = Ok (zero_handle, demo_built).
Proof.
  split; [exact demo_built_reachable|]. split; [reflexivity|].
  destruct (non_member_reads_zero demo_this demo_verifier bob demo_built
              demo_built_reachable eq_refl) as (He & Hb & _).
  split; [exact He | exact Hb].
Defined.

Lemma slots_hold_catalogue_ids_witness :
  reachable demo_this demo_verifier demo_built /\
  joined (player_of demo_built alice) = true /\
  (decrypt (tiles (player_of demo_built alice) !!! 2%fin) = 0 \/
   exists b, In b UI.BUILDINGS /\
             UI.id b = decrypt (tiles (player_of demo_built alice) !!! 2%fin)).
Proof.
  split; [exact demo_built_reachable|]. split; [reflexivity|].
  exact (slots_hold_catalogue_ids demo_this demo_verifier alice 2%fin demo_built
           demo_built_reachable eq_refl).
Defined.

Lemma balance_in_hundreds_witness :
  reachable demo_this demo_verifier demo_built /\
  joined (player_of demo_built alice) = true /\
  (100 | decrypt (balance (player_of demo_built alice))) /\
  0 <= decrypt (balance (player_of demo_built alice)) <= 10000.
Proof.
  split; [exact demo_built_reachable|]. split; [reflexivity|].
  exact (balance_in_hundreds demo_this demo_verifier alice demo_built
           demo_built_reachable eq_refl).
Defined.

Lemma map_value_within_spending_witness :
  reachable demo_this demo_verifier demo_built /\
  joined (player_of demo_built alice) = true /\
  0 <= map_value (player_of demo_built alice) /\
  decrypt (balance (player_of demo_built alice))
    + map_value (player_of demo_built alice) <= 10000.
Proof.
  split; [exact demo_built_reachable|]. split; [reflexivity|].
  exact (map_value_within_spending demo_this demo_verifier alice demo_built
           demo_built_reachable eq_refl).
Defined.

Lemma event_log_matches_state_witness :
  reachable demo_this demo_verifier demo_built /\
  joins_logged alice (events demo_built) = 1%nat /\
  joins_logged bob (events demo_built) = 0%nat.
Proof.
  split; [exact demo_built_reachable|].
  split.
  - exact (proj1 (event_log_matches_state demo_this demo_verifier alice 0%nat
                    demo_built demo_built_reachable)).
  - exact (proj1 (event_log_matches_state demo_this demo_verifier bob 0%nat
                    demo_built demo_built_reachable)).
Defined.

Lemma checked_task_build_goes_through_witness :
  Tasks.check_tile (Tasks.Finite (QArith_base.Qmake 4 1)) = None /\
  Tasks.check_type (Tasks.Finite (QArith_base.Qmake 2 1)) = None /\
  joined (player_of demo_joined alice) = true /\
  demo_verifier 2%N [2%N] = Some (Tasks.sent (Tasks.Finite (QArith_base.Qmake 2 1))) /\
  exists s',
    build demo_this demo_verifier alice 4 2%N [2%N] demo_joined = Ok (tt, s') /\
    decrypt (tiles (player_of s' alice) !!! 4%fin) = 2 /\
    decrypt (balance (player_of s' alice)) = 9800.
Proof.
  split; [reflexivity|]. split; [reflexivity|]. split; [reflexivity|].
  split; [reflexivity|].
  destruct (checked_task_build_goes_through demo_this demo_verifier alice
              (Tasks.Finite (QArith_base.Qmake 4 1))
              (Tasks.Finite (QArith_base.Qmake 2 1)) 2%N [2%N] demo_joined
              eq_refl eq_refl eq_refl eq_refl) as (k & s' & Hk & Hrun & _ & Hc).
  assert (Hk4 : k = 4%fin) by (apply (inj fin_to_nat); exact Hk).
  subst k. exists s'. split; [exact Hrun|].
  destruct Hc as [Ht Hb]; [by vm_compute|].
  split; [exact Ht|]. rewrite Hb. reflexivity.
Defined.

Lemma join_if_needed_then_build_witness :
  demo_verifier 1%N [1%N] = Some 1 /\
  joined (player_of (join_if_needed demo_this bob demo_built) bob) = true /\
  exists s',
    build demo_this demo_verifier bob 0 1%N [1%N]
      (join_if_needed demo_this bob demo_built) = Ok (tt, s') /\
    decrypt (balance (player_of s' bob)) = 9900 /\
    decrypt (tiles (player_of s' bob) !!! 0%fin) = 1.
Proof.
  split; [reflexivity|].
  destruct (join_if_needed_then_build demo_this demo_verifier bob 1%N [1%N] demo_built
              eq_refl) as (Hj & s' & Hrun & Hc & _).
  split; [exact Hj|]. exists s'. split; [exact Hrun|].
  destruct Hc as [Hb Ht]; [by vm_compute|].
  split; [rewrite Hb; reflexivity | exact Ht].
Defined.

Lemma first_build_after_join_witness :
  joined (player_of demo_built bob) = false /\
  demo_verifier 9%N [9%N] = Some 9 /\ 0 <= 9 < 256 /\
  exists s1 s2,
    joinGame demo_this bob demo_built = Ok (tt, s1) /\
    build demo_this demo_verifier bob 1 9%N [9%N] s1 = Ok (tt, s2) /\
    decrypt (balance (player_of s2 bob)) = 10000 /\
    decrypt (tiles (player_of s2 bob) !!! 1%fin) = 0.
Proof.
  assert (Hr : 0 <= 9 < 256) by lia.
  split; [reflexivity|]. split; [reflexivity|]. split; [exact Hr|].
  destruct (first_build_after_join demo_this demo_verifier bob 1%fin 9%N [9%N] 9
              demo_built eq_refl eq_refl Hr) as (s1 & s2 & H1 & H2 & Hb & Ht & _).
  exists s1, s2. split; [exact H1|]. split; [exact H2|].
  split; [exact Hb | exact Ht].
Defined.

